(** * WebpToJpeg: the converter component (src/components/HelloWorld.vue)

    A shallow embedding of the component's [data()] record and of its four
    methods, [handleFileSelect], [convertImages], [convertWebpToJpeg] and
    [downloadAllImages], together with the guards of the template that
    decide what the page shows.

    The browser (FileReader, Image, canvas, URL, the DOM) and the JSZip
    library are not part of the component: they are taken as parameters, one
    record of oracles each, and every theorem quantifies over them.  An
    oracle always answers: a reader fires [onload] or [onerror], an image
    likewise, a call returns or throws.

    An asynchronous method is followed from its call to the point where its
    promise settles.  Where it waits, the log it leaves records the state
    the page is rendered from ([Idle]).

    The conversion run is given twice.  [convertImages] is the run that
    nothing disturbs: no other handler of the component runs while it
    waits, and the calls that build a canvas return.  [Live.convertImages]
    is the run on the page as it is: the file input stays enabled during a
    run, so a selection, or the failure of an export, can come in at every
    wait, and a canvas that cannot be built leaves the awaited promise
    unsettled.  The two agree when nothing comes in and every canvas can be
    built ([live_undisturbed]). *)

From stdpp Require Import base list strings pretty.
From Stdlib Require Import Ascii.
From Stdlib Require QArith_base.

Abbreviation Q := QArith_base.Q.

(** ** The string operations the component calls *)

Module JS.

(** Code units are 8-bit characters here.  [toLowerCase] maps the ASCII
    capitals to their lower-case letters and leaves every other character
    alone.  The component only compares the tail of the result with the
    ASCII literal ".webp", and JavaScript's mapping sends no character
    other than W, E, B and P to a letter of that literal. *)
Definition isUpper (c : ascii) : bool :=
  (65 <=? nat_of_ascii c)%nat && (nat_of_ascii c <=? 90)%nat.

Definition lowerChar (c : ascii) : ascii :=
  if isUpper c then ascii_of_nat (nat_of_ascii c + 32) else c.

Fixpoint toLowerCase (s : string) : string :=
  match s with
  | EmptyString => EmptyString
  | String c s' => String (lowerChar c) (toLowerCase s')
  end.

(** [s.endsWith(t)]: [t] is no longer than [s] and the last [t.length]
    code units of [s] are those of [t]. *)
Definition endsWith (s t : string) : bool :=
  (String.length t <=? String.length s)%nat
  && String.eqb (String.substring (String.length s - String.length t)
                           (String.length t) s) t.

(** [s.split(c)] for a one-character separator: the pieces between the
    occurrences of [c], in order; a string without [c] is its only piece. *)
Fixpoint split (sep : ascii) (s : string) : list string :=
  match s with
  | EmptyString => [EmptyString]
  | String c s' =>
      if Ascii.eqb c sep then EmptyString :: split sep s'
      else match split sep s' with
           | piece :: rest => String c piece :: rest
           | [] => [String c EmptyString]
           end
  end.

End JS.

(** ** Data model *)

(** A file handed over by the file picker: its name, its declared media
    type, and the bytes behind it. *)
Module File.
Record t : Type := mk { name : string; type : string; bytes : string }.
End File.
Abbreviation File := File.t.

(** What [convertWebpToJpeg] resolves with. *)
Record ConversionResult : Type := mkResult {
  name : string;
  url : string;
  originalFile : File;
}.

(** The component's [data()]. *)
Record BatchState : Type := mkState {
  selectedFiles : list File;
  convertedImages : list ConversionResult;
  isConverting : bool;
  error : option string;
}.

Definition data : BatchState :=
  {| selectedFiles := []; convertedImages := []; isConverting := false;
     error := None |}.

Definition set_selectedFiles (v : list File) (st : BatchState) : BatchState :=
  {| selectedFiles := v; convertedImages := convertedImages st;
     isConverting := isConverting st; error := error st |}.
Definition set_convertedImages (v : list ConversionResult) (st : BatchState)
  : BatchState :=
  {| selectedFiles := selectedFiles st; convertedImages := v;
     isConverting := isConverting st; error := error st |}.
Definition set_isConverting (v : bool) (st : BatchState) : BatchState :=
  {| selectedFiles := selectedFiles st; convertedImages := convertedImages st;
     isConverting := v; error := error st |}.
Definition set_error (v : option string) (st : BatchState) : BatchState :=
  {| selectedFiles := selectedFiles st; convertedImages := convertedImages st;
     isConverting := isConverting st; error := v |}.

(** ** handleFileSelect *)

(** The arrow function given to [filter]. *)
Definition isWebp (file : File) : bool :=
  String.eqb (File.type file) "image/webp"
  || JS.endsWith (JS.toLowerCase (File.name file)) ".webp".

Definition handleFileSelect (files : list File) (st : BatchState) : BatchState :=
  let st := set_selectedFiles (List.filter isWebp files) st in
  let st := set_convertedImages [] st in
  set_error None st.

(** ** The browser and the archive library *)

(** How a platform call, or an awaited promise, ends: with a value, or with
    an exception (a rejection).  Of the exception only [message] is kept, the
    one property the component reads. *)
Inductive Completion (A : Type) : Type :=
| Normal (a : A)
| Throw (message : string).
Arguments Normal {A} a.
Arguments Throw {A} message.

(** A decoded [Image] and the canvas it is drawn on. *)
Record Img : Type := mkImg { width : nat; height : nat; raster : string }.
Record Canvas : Type := mkCanvas {
  canvas_width : nat; canvas_height : nat; drawn : option Img;
}.

(** The anchor element [downloadAllImages] builds. *)
Record Link : Type := mkLink { href : string; download : string }.

(** The archive handed to [URL.createObjectURL]: named byte entries. *)
Definition Archive : Type := list (string * string).

(** What the converter needs from the browser.  [readAsDataURL] answers
    [Some result] when the reader fires [onload] and [None] when it fires
    [onerror]; [decode] likewise for the [Image] whose [src] is set;
    [toDataURL] returns the data URL or throws. *)
Record Browser : Type := mkBrowser {
  readAsDataURL : File -> option string;
  decode : string -> option Img;
  toDataURL : Canvas -> string -> Q -> Completion string;
}.

(** What the exporter needs: JSZip's handling of one registered payload
    ([zip.file(name, data, {base64: true})], decoded when the archive is
    generated; [None] is JavaScript's [undefined]), the object URL the
    browser mints for a blob, and the three DOM calls made on the link. *)
Record Page : Type := mkPage {
  base64 : option string -> Completion string;
  createObjectURL : Archive -> string;
  appendChild : Link -> Completion unit;
  click : Link -> Completion unit;
  removeChild : Link -> Completion unit;
}.

(** The calls the component makes, in the order it makes them, and the
    points at which it hands control back to the event loop: at an [Idle]
    the page is rendered from the state recorded there. *)
Inductive Event : Type :=
| ReadAsDataURL (file : File)
| SetImgSrc (src : string)
| DrawImage (canvas : Canvas)
| ToDataURL (type : string) (quality : Q)
| ConsoleError (label message : string)
| GenerateAsync
| CreateObjectURL (blob : Archive)
| AppendChild (link : Link)
| Click (link : Link)
| RemoveChild (link : Link)
| RevokeObjectURL (objectUrl : string)
| Idle (view : BatchState).

(** A computation that logs events and may throw: the log up to the point
    reached, and how it ended. *)
Definition Eff (A : Type) : Type := list Event * Completion A.

Definition throw {A} (message : string) : Eff A := ([], Throw message).
Definition emit (e : Event) : Eff unit := ([e], Normal tt).
Definition call {A} (e : Event) (c : Completion A) : Eff A := ([e], c).

#[global] Instance Eff_ret : MRet Eff := fun A a => ([], Normal a).
#[global] Instance Eff_bind : MBind Eff := fun A B k m =>
  match m with
  | (log, Normal a) => let '(log', r) := k a in (log ++ log', r)
  | (log, Throw message) => (log, Throw message)
  end.

(** ** convertWebpToJpeg *)

Definition fileName (index : nat) : string :=
  "img-" +:+ pretty index +:+ ".jpg".

Definition jpegQuality : Q := QArith_base.Qmake 9 10.

(** The canvas of [img.onload]: created with the image's dimensions, the
    image drawn on it at the origin.  The calls that build it
    ([createElement], [getContext], [drawImage]) stand before the [try] of
    the handler; here they return, [Live.renders] says for which images
    they do. *)
Definition drawImage (img : Img) : Canvas :=
  {| canvas_width := width img; canvas_height := height img;
     drawn := Some img |}.

(** The promise the method returns, followed to the point where it settles,
    when nothing else runs meanwhile: [this] is only looked at by the page
    while the method waits.  [Live.convertWebpToJpeg] is the method with
    other handlers running during its waits. *)
Definition convertWebpToJpeg (B : Browser) (this : BatchState)
    (file : File) (index : nat) : Eff ConversionResult :=
  emit (ReadAsDataURL file) ;;
  emit (Idle this) ;;
  match readAsDataURL B file with
  | None => throw ("Failed to read file: " +:+ File.name file)
  | Some result =>
      emit (SetImgSrc result) ;;
      emit (Idle this) ;;
      match decode B result with
      | None => throw ("Failed to load image: " +:+ File.name file)
      | Some img =>
          let canvas := drawImage img in
          emit (DrawImage canvas) ;;
          jpegUrl ← call (ToDataURL "image/jpeg" jpegQuality)
                         (toDataURL B canvas "image/jpeg" jpegQuality) ;
          mret {| name := fileName index; url := jpegUrl;
                  originalFile := file |}
      end
  end.

(** ** convertImages *)

(** [this.convertedImages.push(convertedImage)]. *)
Definition push (convertedImage : ConversionResult) (this : BatchState)
  : BatchState :=
  set_convertedImages (convertedImages this ++ [convertedImage]) this.

(** The [for] loop inside the [try]: the log, the state reached, and
    whether the loop ran to its end or an awaited conversion rejected.
    The lookup [selectedFiles this !! i] is the loop condition and the
    indexing in one: it is [Some file] exactly when [i] is below
    [this.selectedFiles.length].  [fuel] bounds the number of times the
    condition is evaluated.  The state is handed from one turn to the
    next as the loop left it: this is the loop of a run during which no
    other handler runs; [Live.forLoop] is the loop that finds the state as
    the handlers left it. *)
Fixpoint forLoop (B : Browser) (fuel i : nat) (this : BatchState)
    : option (list Event * BatchState * Completion unit) :=
  match fuel with
  | O => None
  | S fuel' =>
      match selectedFiles this !! i with
      | None => Some ([], this, Normal tt)
      | Some file =>
          match convertWebpToJpeg B this file (i + 1) with
          | (log, Throw message) => Some (log, this, Throw message)
          | (log, Normal convertedImage) =>
              match forLoop B fuel' (S i) (push convertedImage this) with
              | Some (log', this'', r) => Some (log ++ log', this'', r)
              | None => None
              end
          end
      end
  end.

Definition convertImages (B : Browser) (this : BatchState)
    : option (BatchState * list Event) :=
  if (length (selectedFiles this) =? 0)%nat then Some (this, [])
  else
    let this := set_isConverting true this in
    let this := set_error None this in
    let this := set_convertedImages [] this in
    match forLoop B (S (length (selectedFiles this))) 0 this with
    | None => None
    | Some (log, this, Normal _) =>
        Some (set_isConverting false this, log)
    | Some (log, this, Throw message) =>
        let log := log ++ [ConsoleError "Conversion error:" message] in
        let this :=
          set_error (Some ("Error converting images: " +:+ message)) this in
        Some (set_isConverting false this, log)
    end.

(** ** downloadAllImages *)

(** The JSZip object: its registered entries, by name.  [zip.file(name,
    data, ...)] assigns [files[name]]: a name already present keeps its
    place and takes the new data. *)
Definition Zip : Type := list (string * option string).

Fixpoint zipFile (entry : string) (data : option string) (zip : Zip) : Zip :=
  match zip with
  | [] => [(entry, data)]
  | (n, d) :: rest =>
      if String.eqb n entry then (entry, data) :: rest
      else (n, d) :: zipFile entry data rest
  end.

(** [zip.generateAsync]: every registered payload is decoded; the promise
    rejects with the first payload JSZip refuses. *)
Fixpoint generateAsync (Z : Page) (zip : Zip) : Completion Archive :=
  match zip with
  | [] => Normal []
  | (n, d) :: rest =>
      match base64 Z d with
      | Throw message => Throw message
      | Normal content =>
          match generateAsync Z rest with
          | Throw message => Throw message
          | Normal blob => Normal ((n, content) :: blob)
          end
      end
  end.

(** The callback of [forEach], applied to the zip built so far. *)
Definition addImage (zip : Zip) (image : ConversionResult) : Zip :=
  let base64Data := JS.split "," (url image) !! 1%nat in
  zipFile (name image) base64Data zip.

Definition settle {A} (c : Completion A) : Eff A := ([], c).

(** The body of the [try] block. *)
Definition exportBody (Z : Page) (this : BatchState) : Eff unit :=
  let zip := foldl addImage [] (convertedImages this) in
  emit GenerateAsync ;;
  emit (Idle this) ;;
  zipBlob ← settle (generateAsync Z zip) ;
  let zipUrl := createObjectURL Z zipBlob in
  emit (CreateObjectURL zipBlob) ;;
  let link := {| href := zipUrl; download := "converted_images.zip" |} in
  call (AppendChild link) (appendChild Z link) ;;
  call (Click link) (click Z link) ;;
  call (RemoveChild link) (removeChild Z link) ;;
  emit (RevokeObjectURL zipUrl).

Definition downloadAllImages (Z : Page) (this : BatchState)
    : BatchState * list Event :=
  if (length (convertedImages this) =? 0)%nat then (this, [])
  else
    match exportBody Z this with
    | (log, Normal _) => (this, log)
    | (log, Throw message) =>
        (set_error (Some ("Error creating zip file: " +:+ message)) this,
         log ++ [ConsoleError "Error creating zip file:" message])
    end.

(** ** The template's guards *)

(** [v-if="convertedImages.length > 0"] on the results section. *)
Definition showsResults (st : BatchState) : bool :=
  (0 <? length (convertedImages st))%nat.

(** [:disabled="selectedFiles.length === 0 || isConverting"] on the
    convert button. *)
Definition convertDisabled (st : BatchState) : bool :=
  (length (selectedFiles st) =? 0)%nat || isConverting st.

(** [v-if="error"]: shown for a non-empty string. *)
Definition showsError (st : BatchState) : bool :=
  match error st with
  | Some message => negb (String.eqb message "")
  | None => false
  end.

(** ** Reading a log *)

(** The states the page was rendered from while an operation was waiting. *)
Definition frames (log : list Event) : list BatchState :=
  omap (fun e => match e with Idle view => Some view | _ => None end) log.

(** The platform calls alone. *)
Definition calls (log : list Event) : list Event :=
  List.filter (fun e => match e with Idle _ => false | _ => true end) log.

(** The object URLs created and not yet revoked at the end of a log. *)
Definition live (Z : Page) (log : list Event) : list string :=
  foldl (fun urls e =>
           match e with
           | CreateObjectURL blob => urls ++ [createObjectURL Z blob]
           | RevokeObjectURL u =>
               List.filter (fun v => negb (String.eqb v u)) urls
           | _ => urls
           end) [] log.

(** The downloads triggered: for every click on a link, the name the
    target is offered under and the target. *)
Definition downloads (log : list Event) : list (string * string) :=
  omap (fun e => match e with
                 | Click link => Some (download link, href link)
                 | _ => None
                 end) log.

(** ** The selection filter, in the specification's words *)

(** The capital letters, each with its lower-case letter. *)
Definition capitals : list (ascii * ascii) :=
  zip (String.list_ascii_of_string "ABCDEFGHIJKLMNOPQRSTUVWXYZ")
      (String.list_ascii_of_string "abcdefghijklmnopqrstuvwxyz").

(** Two characters that are equal when case is ignored. *)
Definition sameLetter (c d : ascii) : Prop :=
  c = d \/ (c, d) ∈ capitals \/ (d, c) ∈ capitals.

#[global] Instance sameLetter_dec c d : Decision (sameLetter c d).
Proof. unfold sameLetter. apply _. Defined.

(** Two strings that are equal when case is ignored. *)
Inductive eqIgnoreCase : string -> string -> Prop :=
| eqIgnoreCase_nil : eqIgnoreCase "" ""
| eqIgnoreCase_cons c d s t :
    sameLetter c d -> eqIgnoreCase s t ->
    eqIgnoreCase (String c s) (String d t).

(** A file recognised as WebP: by its declared media type, or by a file
    name that ends, case ignored, in ".webp". *)
Definition WebP (file : File) : Prop :=
  File.type file = "image/webp"
  \/ exists stem ext,
       File.name file = stem +:+ ext /\ eqIgnoreCase ext ".webp".

(** [subsetOf P l k]: [k] is what is left of [l] when exactly the elements
    that satisfy [P] are kept, each where it was. *)
Inductive subsetOf {A} (P : A -> Prop) : list A -> list A -> Prop :=
| subsetOf_nil : subsetOf P [] []
| subsetOf_keep x l k : P x -> subsetOf P l k -> subsetOf P (x :: l) (x :: k)
| subsetOf_drop x l k : ~ P x -> subsetOf P l k -> subsetOf P (x :: l) k.

(** ** The converter and the batch, in the specification's words *)

(** A conversion that produces its JPEG: the file is read, the bytes decode
    to an image, and the canvas holding that image encodes to [jpegUrl]. *)
Inductive resolves (B : Browser) (file : File) : string -> Prop :=
| resolves_intro result img jpegUrl :
    readAsDataURL B file = Some result ->
    decode B result = Some img ->
    toDataURL B (drawImage img) "image/jpeg" jpegQuality = Normal jpegUrl ->
    resolves B file jpegUrl.

(** The three failures of a conversion, each with its description. *)
Inductive rejects (B : Browser) (file : File) : string -> Prop :=
| ReadError :
    readAsDataURL B file = None ->
    rejects B file ("Failed to read file: " +:+ File.name file)
| DecodeError result :
    readAsDataURL B file = Some result ->
    decode B result = None ->
    rejects B file ("Failed to load image: " +:+ File.name file)
| EncodeError result img message :
    readAsDataURL B file = Some result ->
    decode B result = Some img ->
    toDataURL B (drawImage img) "image/jpeg" jpegQuality = Throw message ->
    rejects B file message.

(** The results of the files at positions [i], [i + 1], ... of a selection,
    given the JPEG each was encoded to: numbered from [i + 1]. *)
Fixpoint named (i : nat) (files : list File) (urls : list string)
    : list ConversionResult :=
  match files, urls with
  | file :: files', jpegUrl :: urls' =>
      {| name := fileName (i + 1); url := jpegUrl; originalFile := file |}
        :: named (S i) files' urls'
  | _, _ => []
  end.

(** The files a log shows a read being started for, in the order of the
    reads. *)
Definition attempted (log : list Event) : list File :=
  omap (fun e => match e with ReadAsDataURL file => Some file | _ => None end)
       log.

(** The state a run over [st] shows while it waits with [results] done. *)
Definition inFlight (st : BatchState) (results : list ConversionResult)
  : BatchState :=
  {| selectedFiles := selectedFiles st; convertedImages := results;
     isConverting := true; error := None |}.


(** What the page is rendered from while the run waits on the file at
    position [j] (from 0) of a batch that started in [this] and has
    [results] to deliver: the results of the files before it. *)
Definition stage (this : BatchState) (results : list ConversionResult)
    (j : nat) : BatchState :=
  set_convertedImages (convertedImages this ++ take j results) this.

(** [log] is the log of one conversion of [file]. *)
Definition conversionOf (B : Browser) (file : File) (log : list Event) : Prop :=
  exists this index, log = (convertWebpToJpeg B this file index).1.

(** [log] is made of the conversions of [files], one after the other. *)
Definition oneByOne (B : Browser) (files : list File) (log : list Event)
  : Prop :=
  exists logs, log = concat logs /\ Forall2 (conversionOf B) files logs.

(** The loop of [convertImages] unrolled over the files still to convert. *)
Fixpoint batch (B : Browser) (i : nat) (files : list File) (this : BatchState)
    : list Event * BatchState * Completion unit :=
  match files with
  | [] => ([], this, Normal tt)
  | file :: files' =>
      match convertWebpToJpeg B this file (i + 1) with
      | (log, Throw message) => (log, this, Throw message)
      | (log, Normal convertedImage) =>
          let '(log', this', r) := batch B (S i) files' (push convertedImage this) in
          (log ++ log', this', r)
      end
  end.

(** ** The states of the component *)

(** The states the component can be in between two operations: the initial
    [data()], and whatever a selection, a finished conversion run that
    nothing disturbed or an export leaves, under any behaviour of the
    browser. *)
Inductive reachable : BatchState -> Prop :=
| reachable_data : reachable data
| reachable_select files st :
    reachable st -> reachable (handleFileSelect files st)
| reachable_convert B st st' log :
    reachable st -> convertImages B st = Some (st', log) -> reachable st'
| reachable_download Z st :
    reachable st -> reachable (downloadAllImages Z st).1.

(** The payload [addImage] registers for a result. *)
Definition payload (image : ConversionResult) : option string :=
  JS.split "," (url image) !! 1%nat.

(** [c] occurs in [s]. *)
Fixpoint occurs (c : ascii) (s : string) : bool :=
  match s with
  | EmptyString => false
  | String d s' => Ascii.eqb d c || occurs c s'
  end.

(** The link of an export, given the archive. *)
Definition zipLink (Z : Page) (blob : Archive) : Link :=
  {| href := createObjectURL Z blob; download := "converted_images.zip" |}.

(** ** The rest of the template *)

(** The text of the convert button:
    [isConverting ? 'Converting...' : 'Convert to JPEG']. *)
Definition convertLabel (st : BatchState) : string :=
  if isConverting st then "Converting..." else "Convert to JPEG".

(** The upload info, [v-if="selectedFiles.length > 0"]: the number it
    shows in front of "file(s) selected", when it is shown. *)
Definition uploadInfo (st : BatchState) : option nat :=
  if (0 <? length (selectedFiles st))%nat
  then Some (length (selectedFiles st)) else None.

(** The download link of one item of the [v-for] over [convertedImages]:
    [:href="image.url" :download="image.name"]. *)
Definition imageLink (image : ConversionResult) : Link :=
  {| href := url image; download := name image |}.

(** The links the results section holds; the section is there under its
    [v-if] only. *)
Definition imageLinks (st : BatchState) : list Link :=
  if showsResults st then imageLink <$> convertedImages st else [].

(** [s] cut at the first [c]: what stands before it and what stands
    after it, when [c] occurs. *)
Fixpoint cut (c : ascii) (s : string) : option (string * string) :=
  match s with
  | EmptyString => None
  | String d s' =>
      if Ascii.eqb d c then Some (EmptyString, s')
      else match cut c s' with
           | Some (before, after) => Some (String d before, after)
           | None => None
           end
  end.

(** The events of a log that start or finish a download: none of them is
    in the log of an export that stopped before it had an archive. *)
Definition touchesPage (e : Event) : bool :=
  match e with
  | CreateObjectURL _ | AppendChild _ | Click _ | RemoveChild _
  | RevokeObjectURL _ => true
  | _ => false
  end.

(** ** Sample inputs *)

Module Examples.

Definition a_webp : File := File.mk "a.webp" "image/webp" "RIFF-a".
Definition b_webp : File := File.mk "b.webp" "image/webp" "corrupt".
Definition b_png : File := File.mk "b.png" "image/png" "PNG-b".
Definition c_WEBP : File := File.mk "c.WEBP" "" "RIFF-c".
Definition d_webp : File := File.mk "d.webp" "image/webp" "RIFF-d".

(** A browser that reads every file, decodes every data URL but the one
    of the bytes "corrupt", and encodes every canvas. *)
Definition browser : Browser :=
  {| readAsDataURL file := Some ("data:image/webp;base64," +:+ File.bytes file);
     decode src :=
       if String.eqb src "data:image/webp;base64,corrupt" then None
       else Some (mkImg 2 3 src);
     toDataURL canvas type quality :=
       Normal "data:image/jpeg;base64,/9j/4AAQ" |}.

(** A page on which the export goes through. *)
Definition page : Page :=
  {| base64 data :=
       match data with
       | Some text => Normal ("bytes of " +:+ text)
       | None => Normal ""
       end;
     createObjectURL blob := "blob:converted";
     appendChild link := Normal tt;
     click link := Normal tt;
     removeChild link := Normal tt |}.

(** The same page, except that clicking the link throws. *)
Definition page_click_throws : Page :=
  {| base64 := base64 page;
     createObjectURL := createObjectURL page;
     appendChild := appendChild page;
     click link := Throw "click failed";
     removeChild := removeChild page |}.

Definition selected (files : list File) : BatchState :=
  handleFileSelect files data.

(** The state a run over [a.webp; b.webp] ends in: one result, and the
    error of the second file. *)
Definition after_partial_run : BatchState :=
  {| selectedFiles := [a_webp; b_webp];
     convertedImages :=
       [{| name := "img-1.jpg"; url := "data:image/jpeg;base64,/9j/4AAQ";
           originalFile := a_webp |}];
     isConverting := false;
     error := Some "Error converting images: Failed to load image: b.webp" |}.

(** The state a run over [a.webp; d.webp] ends in: two results. *)
Definition after_full_run : BatchState :=
  {| selectedFiles := [a_webp; d_webp];
     convertedImages :=
       [{| name := "img-1.jpg"; url := "data:image/jpeg;base64,/9j/4AAQ";
           originalFile := a_webp |};
        {| name := "img-2.jpg"; url := "data:image/jpeg;base64,/9j/4AAQ";
           originalFile := d_webp |}];
     isConverting := false;
     error := None |}.

End Examples.

(** ** The run with the page alive *)

(** While [convertImages] waits, the page stays usable: the file input is
    never disabled, so its [change] handler can run between two steps of
    the loop, and an export started from the results section can fail and
    write [error].  The loop reads [this.selectedFiles] and pushes to
    [this.convertedImages] afresh after every wait.  Nor is every step of a
    conversion caught: the canvas is built in [img.onload] before the [try],
    and an exception there settles the promise neither way.

    [Live] is the run with both: a schedule says which handlers run during
    the first wait, the second, and so on, and the machine says for which
    images the canvas can be built.  [convertImages] above is the run that
    nothing disturbs (see [live_undisturbed]). *)

Module Live.

(** The browser, and whether [createElement], [getContext] and
    [drawImage] return for an image. *)
Record Machine : Type := mkMachine {
  api : Browser;
  renders : Img -> bool;
}.

(** What can happen to the state while a method waits: a new selection,
    or the catch handler of an export that was under way. *)
Inductive Interrupt : Type :=
| Selection (files : list File)
| ExportFailure (message : string).

Definition interrupt (this : BatchState) (e : Interrupt) : BatchState :=
  match e with
  | Selection files => handleFileSelect files this
  | ExportFailure message =>
      set_error (Some ("Error creating zip file: " +:+ message)) this
  end.

(** The handlers that run during the first wait, the second, ...; no
    handler runs during a wait the schedule does not reach. *)
Definition Schedule : Type := list (list Interrupt).

(** The handlers of one wait, the page rendered after each. *)
Fixpoint handle (this : BatchState) (now : list Interrupt)
    : list Event * BatchState :=
  match now with
  | [] => ([], this)
  | e :: later =>
      let this' := interrupt this e in
      (Idle this' :: (handle this' later).1, (handle this' later).2)
  end.

(** One wait: the page is rendered from the state as the method left it,
    then the handlers scheduled for this wait run. *)
Definition wait (this : BatchState) (sched : Schedule)
    : list Event * BatchState * Schedule :=
  match sched with
  | [] => ([Idle this], this, [])
  | now :: later =>
      (Idle this :: (handle this now).1, (handle this now).2, later)
  end.

(** An awaited promise: settled, or never settled. *)
Inductive Awaited (A : Type) : Type :=
| Settled (c : Completion A)
| Unsettled.
Arguments Settled {A} c.
Arguments Unsettled {A}.

(** [convertWebpToJpeg(file, index)] with the page alive: the log, the
    state and the schedule when the promise settles or is given up, and how
    it ended. *)
Definition convertWebpToJpeg (M : Machine) (file : File) (index : nat)
    (this : BatchState) (sched : Schedule)
    : list Event * BatchState * Schedule * Awaited ConversionResult :=
  let reading := wait this sched in
  match readAsDataURL (api M) file with
  | None =>
      (ReadAsDataURL file :: reading.1.1, reading.1.2, reading.2,
       Settled (Throw ("Failed to read file: " +:+ File.name file)))
  | Some result =>
      let decoding := wait reading.1.2 reading.2 in
      let log :=
        ReadAsDataURL file :: reading.1.1
          ++ SetImgSrc result :: decoding.1.1 in
      match decode (api M) result with
      | None =>
          (log, decoding.1.2, decoding.2,
           Settled (Throw ("Failed to load image: " +:+ File.name file)))
      | Some img =>
          if renders M img then
            let canvas := drawImage img in
            (log ++ [DrawImage canvas; ToDataURL "image/jpeg" jpegQuality],
             decoding.1.2, decoding.2,
             Settled
               match toDataURL (api M) canvas "image/jpeg" jpegQuality with
               | Normal jpegUrl =>
                   Normal {| name := fileName index; url := jpegUrl;
                             originalFile := file |}
               | Throw message => Throw message
               end)
          else (log, decoding.1.2, decoding.2, Unsettled)
      end
  end.

(** How the loop ends: it leaves the [try] normally or by an exception,
    or it waits for ever on a promise, or the fuel gave out. *)
Inductive Run : Type :=
| Returns (log : list Event) (this : BatchState) (c : Completion unit)
| Stalls (log : list Event) (this : BatchState)
| OutOfFuel.

Definition after (log : list Event) (r : Run) : Run :=
  match r with
  | Returns log' this c => Returns (log ++ log') this c
  | Stalls log' this => Stalls (log ++ log') this
  | OutOfFuel => OutOfFuel
  end.

(** The [for] loop: condition and indexing read the selection as it is
    when the loop comes round, and the result is pushed to the results as
    they are when the conversion has settled. *)
Fixpoint forLoop (M : Machine) (fuel i : nat) (this : BatchState)
    (sched : Schedule) : Run :=
  match fuel with
  | O => OutOfFuel
  | S fuel' =>
      match selectedFiles this !! i with
      | None => Returns [] this (Normal tt)
      | Some file =>
          match convertWebpToJpeg M file (i + 1) this sched with
          | (log, this', sched', Unsettled) => Stalls log this'
          | (log, this', sched', Settled (Throw message)) =>
              Returns log this' (Throw message)
          | (log, this', sched', Settled (Normal convertedImage)) =>
              after log (forLoop M fuel' (S i) (push convertedImage this')
                                 sched')
          end
      end
  end.

(** The number of files a handler can leave selected, and the largest
    such number over the handlers of a wait, and of a schedule. *)
Definition brings (e : Interrupt) : nat :=
  match e with
  | Selection files => length files
  | ExportFailure _ => 0
  end.

Definition widest (now : list Interrupt) : nat :=
  foldr (fun e n => max (brings e) n) 0 now.

Definition longest (sched : Schedule) : nat :=
  foldr (fun now n => max (widest now) n) 0 sched.

(** How a call of [convertImages] ends. *)
Inductive Outcome : Type :=
| Finished (this : BatchState) (log : list Event)
| Stalled (this : BatchState) (log : list Event)
| Diverged.

Definition convertImages (M : Machine) (sched : Schedule)
    (this : BatchState) : Outcome :=
  if (length (selectedFiles this) =? 0)%nat then Finished this []
  else
    let this := set_isConverting true this in
    let this := set_error None this in
    let this := set_convertedImages [] this in
    let fuel := S (max (length (selectedFiles this)) (longest sched)) in
    match forLoop M fuel 0 this sched with
    | OutOfFuel => Diverged
    | Stalls log this => Stalled this log
    | Returns log this (Normal _) =>
        Finished (set_isConverting false this) log
    | Returns log this (Throw message) =>
        let log := log ++ [ConsoleError "Conversion error:" message] in
        let this :=
          set_error (Some ("Error converting images: " +:+ message)) this in
        Finished (set_isConverting false this) log
    end.

(** A conversion that produces its JPEG, one that fails, and one that is
    never heard of again, read off the machine. *)
Inductive resolves (M : Machine) (file : File) : string -> Prop :=
| resolves_intro result img jpegUrl :
    readAsDataURL (api M) file = Some result ->
    decode (api M) result = Some img ->
    renders M img = true ->
    toDataURL (api M) (drawImage img) "image/jpeg" jpegQuality
    = Normal jpegUrl ->
    resolves M file jpegUrl.

Inductive rejects (M : Machine) (file : File) : string -> Prop :=
| ReadError :
    readAsDataURL (api M) file = None ->
    rejects M file ("Failed to read file: " +:+ File.name file)
| DecodeError result :
    readAsDataURL (api M) file = Some result ->
    decode (api M) result = None ->
    rejects M file ("Failed to load image: " +:+ File.name file)
| EncodeError result img message :
    readAsDataURL (api M) file = Some result ->
    decode (api M) result = Some img ->
    renders M img = true ->
    toDataURL (api M) (drawImage img) "image/jpeg" jpegQuality
    = Throw message ->
    rejects M file message.

Inductive stalls (M : Machine) (file : File) : Prop :=
| stalls_intro result img :
    readAsDataURL (api M) file = Some result ->
    decode (api M) result = Some img ->
    renders M img = false ->
    stalls M file.

(** A schedule that brings no new selection. *)
Definition calm (now : list Interrupt) : Prop :=
  Forall (fun e => match e with
                   | Selection _ => False
                   | ExportFailure _ => True
                   end) now.

Definition selectionFree (sched : Schedule) : Prop := Forall calm sched.

(** A schedule during which no handler runs at all. *)
Definition quiet (sched : Schedule) : Prop :=
  Forall (fun now => now = []) sched.

(** What no handler but a selection changes. *)
Definition keeps (this this' : BatchState) : Prop :=
  selectedFiles this' = selectedFiles this
  /\ convertedImages this' = convertedImages this
  /\ isConverting this' = isConverting this.

(** The loop stops, by leaving the [try] or by waiting for ever, with
    this log and this state. *)
Definition stopsWith (r : Run) (log : list Event) (this : BatchState)
  : Prop :=
  (exists c, r = Returns log this c) \/ r = Stalls log this.

(** [log] is the log of one conversion of [file]. *)
Definition conversionOf (M : Machine) (file : File) (log : list Event)
  : Prop :=
  exists index this sched,
    log = (convertWebpToJpeg M file index this sched).1.1.1.

(** [log] is made of the conversions of [files], one after the other. *)
Definition oneByOne (M : Machine) (files : list File) (log : list Event)
  : Prop :=
  exists logs, log = concat logs /\ Forall2 (conversionOf M) files logs.

(** For every read of a log, the file read and the state the page is
    rendered from as the read starts. *)
Fixpoint readFrames (log : list Event) : list (File * BatchState) :=
  match log with
  | [] => []
  | e :: rest =>
      match e, rest with
      | ReadAsDataURL file, Idle view :: _ => (file, view) :: readFrames rest
      | _, _ => readFrames rest
      end
  end.

End Live.

(** ** More sample inputs *)

Module MoreExamples.

(** A page whose JSZip refuses every payload. *)
Definition page_refuses : Page :=
  {| base64 data := Throw "Invalid base64 input";
     createObjectURL := createObjectURL Examples.page;
     appendChild := appendChild Examples.page;
     click := click Examples.page;
     removeChild := removeChild Examples.page |}.

(** The selection of [a.webp] and [d.webp], nothing converted yet. *)
Definition two_selected : BatchState :=
  Examples.selected [Examples.a_webp; Examples.d_webp].

(** The log of the run over that selection. *)
Definition full_run_log : list Event :=
  default [] (snd <$> convertImages Examples.browser two_selected).


(** The sample browser, on which every canvas can be built. *)
Definition machine : Live.Machine :=
  {| Live.api := Examples.browser; Live.renders img := true |}.

(** The same browser, except that the canvas for the image of [d.webp]
    cannot be built. *)
Definition machine_without_canvas : Live.Machine :=
  {| Live.api := Examples.browser;
     Live.renders img :=
       negb (String.eqb (raster img) "data:image/webp;base64,RIFF-d") |}.



(** A page on which detaching the link throws. *)
Definition page_remove_throws : Page :=
  {| base64 := base64 Examples.page;
     createObjectURL := createObjectURL Examples.page;
     appendChild := appendChild Examples.page;
     click := click Examples.page;
     removeChild link := Throw "The node to be removed is not a child of this node." |}.

End MoreExamples.

(** * Properties *)

(** ** Strings *)

Section Strings.

Lemma toLowerCase_app (s t : string) :
  JS.toLowerCase (s +:+ t) = JS.toLowerCase s +:+ JS.toLowerCase t.
Proof. induction s as [|c s IH]; simpl; [done | by rewrite IH]. Qed.

Lemma string_length_app (s t : string) :
  String.length (s +:+ t) = String.length s + String.length t.
Proof. induction s as [|c s IH]; simpl; [done | by rewrite IH]. Qed.


Lemma substring_all (t : string) : String.substring 0 (String.length t) t = t.
Proof. induction t as [|c t IH]; simpl; [done | by rewrite IH]. Qed.

Lemma substring_app_r (p t : string) :
  String.substring (String.length p) (String.length t) (p +:+ t) = t.
Proof. induction p as [|c p IH]; simpl; [apply substring_all | done]. Qed.

Lemma substring_split (s : string) (n : nat) :
  n <= String.length s ->
  s = String.substring 0 n s +:+ String.substring n (String.length s - n) s.
Proof.
  revert n. induction s as [|c s IH]; intros [|n] Hn; simpl in *; try lia.
  - done.
  - by rewrite substring_all.
  - change (String c s = String c (String.substring 0 n s
             +:+ String.substring n (String.length s - n) s)).
    f_equal. apply IH. lia.
Qed.

Lemma endsWith_iff (s t : string) :
  JS.endsWith s t = true <-> exists p, s = p +:+ t.
Proof.
  unfold JS.endsWith. rewrite andb_true_iff, Nat.leb_le, String.eqb_eq.
  split.
  - intros [Hle Hsub].
    exists (String.substring 0 (String.length s - String.length t) s).
    pose proof (substring_split s (String.length s - String.length t)
                  ltac:(lia)) as Hs.
    replace (String.length s - (String.length s - String.length t))
      with (String.length t) in Hs by lia.
    by rewrite Hsub in Hs.
  - intros [p ->]. rewrite string_length_app. split; [lia|].
    replace (String.length p + String.length t - String.length t)
      with (String.length p) by lia.
    apply substring_app_r.
Qed.

Lemma toLowerCase_app_inv (s p t : string) :
  JS.toLowerCase s = p +:+ t ->
  exists stem ext, s = stem +:+ ext /\ JS.toLowerCase ext = t.
Proof.
  revert s. induction p as [|c p IH]; intros s H.
  - exists "", s. done.
  - destruct s as [|d s]; [done|].
    injection H as _ H. destruct (IH _ H) as (stem & ext & -> & Hext).
    exists (String d stem), ext. done.
Qed.

Lemma lowerChar_sameLetter (c d : ascii) :
  d ∈ [".";"w";"e";"b";"p"]%char ->
  JS.lowerChar c = d <-> sameLetter c d.
Proof.
  intros Hd.
  assert (bool_decide (JS.lowerChar c = d) = bool_decide (sameLetter c d))
    as Heq.
  { repeat (apply elem_of_cons in Hd as [-> | Hd]);
      [ .. | by apply elem_of_nil in Hd ];
      destruct c as [[] [] [] [] [] [] [] []]; vm_compute; reflexivity. }
  rewrite <- (bool_decide_eq_true (JS.lowerChar c = d)), Heq.
  apply bool_decide_eq_true.
Qed.

Lemma toLowerCase_webp (ext : string) :
  JS.toLowerCase ext = ".webp" <-> eqIgnoreCase ext ".webp".
Proof.
  split.
  - intros H.
    do 5 (destruct ext as [|? ext]; [done|]). destruct ext; [|done].
    simpl in H. simplify_eq.
    repeat (constructor; [apply lowerChar_sameLetter; [by repeat constructor|done]|]).
    constructor.
  - intros H.
    repeat match goal with
           | H : eqIgnoreCase _ _ |- _ => inversion H; clear H; subst
           end.
    simpl.
    repeat match goal with
           | H : sameLetter _ _ |- _ =>
               apply lowerChar_sameLetter in H; [rewrite H|by repeat constructor]
           end.
    done.
Qed.

Lemma isWebp_WebP (file : File) : isWebp file = true <-> WebP file.
Proof.
  unfold isWebp, WebP.
  rewrite orb_true_iff, String.eqb_eq, endsWith_iff.
  split; (intros [H|H]; [by left | right]).
  - destruct H as [p H]. apply toLowerCase_app_inv in H
      as (stem & ext & Hn & Hext).
    exists stem, ext. by rewrite <- toLowerCase_webp.
  - destruct H as (stem & ext & -> & Hext).
    exists (JS.toLowerCase stem).
    rewrite toLowerCase_app. f_equal. by apply toLowerCase_webp.
Qed.

End Strings.


(** ** handleFileSelect: the selection filter *)

Section Selection.

Lemma filter_subsetOf (files : list File) :
  subsetOf WebP files (List.filter isWebp files).
Proof.
  induction files as [|file files IH]; simpl; [constructor|].
  destruct (isWebp file) eqn:E.
  - apply subsetOf_keep; [by apply isWebp_WebP | done].
  - apply subsetOf_drop; [|done].
    rewrite <- isWebp_WebP. by rewrite E.
Qed.

Lemma subsetOf_Forall {A} (P : A -> Prop) l k :
  subsetOf P l k -> Forall P k.
Proof. induction 1; auto. Qed.

Lemma subsetOf_sublist {A} (P : A -> Prop) l k :
  subsetOf P l k -> k `sublist_of` l.
Proof. induction 1; by constructor. Qed.

Lemma subsetOf_complete {A} (P : A -> Prop) l k x :
  subsetOf P l k -> x ∈ l -> P x -> x ∈ k.
Proof.
  induction 1 as [|y l k Hy _ IH|y l k Hy _ IH]; intros Hin HP.
  - done.
  - apply elem_of_cons in Hin as [->|Hin]; [left | right; auto].
  - apply elem_of_cons in Hin as [->|Hin]; [done | auto].
Qed.

(** What is kept is determined by the input alone. *)
Lemma subsetOf_unique {A} (P : A -> Prop) l k k' :
  subsetOf P l k -> subsetOf P l k' -> k = k'.
Proof.
  intros H. revert k'.
  induction H; intros k' H'; inversion H'; subst;
    try done; f_equal; auto.
Qed.

End Selection.

(** C2. For every list of picked files, [handleFileSelect] leaves in
    [selectedFiles] exactly the files that are WebP by declared media type
    or by a name ending, case ignored, in ".webp": every such file of the
    input is kept, nothing else is, and what is kept stands in the order of
    the input.  The filter raises nothing ([error] is [None] afterwards) and
    a selection without any WebP file gives the empty selection. *)
Theorem handleFileSelect_selects_webp (files : list File) (st : BatchState) :
  let out := selectedFiles (handleFileSelect files st) in
  subsetOf WebP files out
  /\ Forall WebP out
  /\ out `sublist_of` files
  /\ (forall file, file ∈ files -> WebP file -> file ∈ out)
  /\ (forall k, subsetOf WebP files k -> k = out)
  /\ (Forall (fun file => ~ WebP file) files -> out = [])
  /\ error (handleFileSelect files st) = None.
Proof.
  simpl. pose proof (filter_subsetOf files) as H.
  repeat split.
  - done.
  - by eapply subsetOf_Forall.
  - by eapply subsetOf_sublist.
  - intros file. by eapply subsetOf_complete.
  - intros k Hk. by eapply subsetOf_unique.
  - intros Hnone. clear H. induction files as [|f files IH]; [done|].
    apply Forall_cons in Hnone as [Hf Hnone]. simpl.
    destruct (isWebp f) eqn:E; [by apply isWebp_WebP in E | auto].
Qed.

(** ** convertWebpToJpeg: one result or one error per file *)

Section Converter.
Context (B : Browser).

Lemma convert_resolves this file index jpegUrl :
  resolves B file jpegUrl ->
  exists log,
    convertWebpToJpeg B this file index =
      (log, Normal {| name := fileName index; url := jpegUrl;
                      originalFile := file |})
    /\ attempted log = [file] /\ frames log = [this; this].
Proof.
  intros [result img u Hr Hd He]. unfold convertWebpToJpeg.
  rewrite Hr. simpl. rewrite Hd. simpl.
  unfold call. rewrite He. eexists; split; [reflexivity|]. done.
Qed.

Lemma convert_rejects this file index message :
  rejects B file message ->
  exists log extra,
    convertWebpToJpeg B this file index = (log, Throw message)
    /\ attempted log = [file]
    /\ frames log = this :: extra /\ Forall (eq this) extra.
Proof.
  intros [Hr | result Hr Hd | result img m Hr Hd He];
    unfold convertWebpToJpeg; rewrite Hr; simpl.
  - eexists _, []; split; [reflexivity|]. done.
  - rewrite Hd; simpl.
    eexists _, [this]; split; [reflexivity|].
    repeat split; by repeat constructor.
  - rewrite Hd; simpl. unfold call. rewrite He.
    eexists _, [this]; split; [reflexivity|].
    repeat split; by repeat constructor.
Qed.

Lemma resolves_or_rejects file :
  (exists jpegUrl, resolves B file jpegUrl)
  \/ (exists message, rejects B file message).
Proof.
  destruct (readAsDataURL B file) as [result|] eqn:Hr;
    [|right; eexists; by apply ReadError].
  destruct (decode B result) as [img|] eqn:Hd;
    [|right; eexists; by eapply DecodeError].
  destruct (toDataURL B (drawImage img) "image/jpeg" jpegQuality)
    as [u|m] eqn:He.
  - left; eexists; by econstructor.
  - right; eexists; by eapply EncodeError.
Qed.

End Converter.

(** ** convertImages: the loop *)

Section Loop.
Context (B : Browser).

Lemma forLoop_batch fuel i this :
  length (selectedFiles this) - i < fuel ->
  forLoop B fuel i this =
    Some (batch B i (drop i (selectedFiles this)) this).
Proof.
  revert i this. induction fuel as [|fuel IH]; intros i this Hfuel; [lia|].
  simpl. destruct (selectedFiles this !! i) as [file|] eqn:E.
  - rewrite (drop_S _ _ _ E). simpl.
    destruct (convertWebpToJpeg B this file (i + 1)) as [log [img|m]];
      [|done].
    apply lookup_lt_Some in E.
    rewrite IH by (simpl; lia). simpl.
    by destruct (batch B (S i) (drop (S i) (selectedFiles this))
                   (push img this)) as [[? ?] ?].
  - apply lookup_ge_None in E. by rewrite drop_ge.
Qed.

Lemma stage_0 this results : stage this results 0 = this.
Proof. destruct this. unfold stage, set_convertedImages. simpl.
       by rewrite take_0, app_nil_r. Qed.

Lemma stage_push this r results j :
  stage (push r this) results j = stage this (r :: results) (S j).
Proof. unfold stage, push, set_convertedImages. simpl.
       by rewrite <- app_assoc. Qed.

Lemma stage_full this results :
  stage this results (length results) =
    set_convertedImages (convertedImages this ++ results) this.
Proof. unfold stage. by rewrite firstn_all. Qed.

Lemma length_named i files urls :
  length files = length urls -> length (named i files urls) = length files.
Proof.
  revert i urls. induction files as [|f files IH]; intros i [|u urls] H;
    simpl in *; try done. rewrite IH; lia.
Qed.

Lemma frames_app l k : frames (l ++ k) = frames l ++ frames k.
Proof. apply omap_app. Qed.

Lemma attempted_app l k : attempted (l ++ k) = attempted l ++ attempted k.
Proof. apply omap_app. Qed.

Lemma flat_map_seq_S {A} (f : nat -> list A) a n :
  flat_map f (seq (S a) n) = flat_map (fun j => f (S j)) (seq a n).
Proof.
  revert a. induction n as [|n IH]; intros a; simpl; [done|].
  by rewrite IH.
Qed.

Lemma oneByOne_nil : oneByOne B [] [].
Proof. exists []. by split; [|constructor]. Qed.

Lemma oneByOne_cons this file index log files log' r :
  convertWebpToJpeg B this file index = (log, r) ->
  oneByOne B files log' -> oneByOne B (file :: files) (log ++ log').
Proof.
  intros Hlog (logs & -> & Hlogs). exists (log :: logs). split; [done|].
  constructor; [|done]. exists this, index. by rewrite Hlog.
Qed.

Lemma batch_resolves files urls :
  Forall2 (resolves B) files urls -> forall i this,
  exists log,
    batch B i files this =
      (log, stage this (named i files urls) (length files), Normal tt)
    /\ attempted log = files
    /\ oneByOne B files log
    /\ frames log =
         flat_map (fun j => let v := stage this (named i files urls) j in
                            [v; v])
                  (seq 0 (length files)).
Proof.
  induction 1 as [|file u files urls Hres _ IH]; intros i this.
  - exists []. simpl. rewrite stage_0. auto using oneByOne_nil.
  - destruct (convert_resolves B this file (i + 1) u Hres)
      as (log & Hlog & Hatt & Hfr).
    destruct (IH (S i) (push {| name := fileName (i + 1); url := u;
                                originalFile := file |} this))
      as (log' & Hlog' & Hatt' & Hone & Hfr').
    exists (log ++ log'). simpl. rewrite Hlog, Hlog'.
    rewrite stage_push, attempted_app, frames_app, Hatt, Hatt', Hfr, Hfr'.
    repeat split; [by eapply oneByOne_cons|].
    rewrite stage_0. simpl. do 2 f_equal.
    rewrite flat_map_seq_S.
    apply flat_map_ext. intros j. by rewrite stage_push.
Qed.

Lemma batch_rejects pre urls f message post :
  Forall2 (resolves B) pre urls -> rejects B f message -> forall i this,
  exists log extra,
    batch B i (pre ++ f :: post) this =
      (log, stage this (named i pre urls) (length pre), Throw message)
    /\ attempted log = pre ++ [f]
    /\ oneByOne B (pre ++ [f]) log
    /\ frames log =
         flat_map (fun j => let v := stage this (named i pre urls) j in
                            [v; v])
                  (seq 0 (length pre))
         ++ stage this (named i pre urls) (length pre) :: extra
    /\ Forall (eq (stage this (named i pre urls) (length pre))) extra.
Proof.
  intros Hpre Hrej.
  induction Hpre as [|file u files urls Hres _ IH]; intros i this.
  - destruct (convert_rejects B this f (i + 1) message Hrej)
      as (log & extra & Hlog & Hatt & Hfr & Hex).
    exists log, extra. simpl. rewrite Hlog, stage_0.
    repeat split; try done.
    rewrite <- (app_nil_r log). eapply oneByOne_cons; eauto using oneByOne_nil.
  - destruct (convert_resolves B this file (i + 1) u Hres)
      as (log & Hlog & Hatt & Hfr).
    destruct (IH (S i) (push {| name := fileName (i + 1); url := u;
                                originalFile := file |} this))
      as (log' & extra & Hlog' & Hatt' & Hone & Hfr' & Hex).
    exists (log ++ log'), extra. simpl. rewrite Hlog, Hlog'.
    rewrite !stage_push in *.
    rewrite attempted_app, frames_app, Hatt, Hatt', Hfr, Hfr'.
    repeat split; [by eapply oneByOne_cons| |done].
    rewrite stage_0. simpl. do 2 f_equal.
    f_equal. rewrite flat_map_seq_S.
    apply flat_map_ext. intros j. by rewrite stage_push.
Qed.

Lemma first_failure (files : list File) :
  (exists urls, Forall2 (resolves B) files urls)
  \/ (exists pre urls f message post,
        files = pre ++ f :: post
        /\ Forall2 (resolves B) pre urls /\ rejects B f message).
Proof.
  induction files as [|file files IH]; [left; by exists []|].
  destruct (resolves_or_rejects B file) as [[u Hu]|[m Hm]].
  - destruct IH as [[urls H]|(pre & urls & f & m & post & -> & H & Hm)].
    + left. exists (u :: urls). by constructor.
    + right. exists (file :: pre), (u :: urls), f, m, post.
      repeat split; [by constructor | done].
  - right. by exists [], [], file, m, files.
Qed.

Lemma stage_inFlight st results j :
  stage (inFlight st []) results j = inFlight st (take j results).
Proof. done. Qed.

(** A run over a selection every file of which converts. *)
Lemma convertImages_resolves st urls :
  selectedFiles st <> [] ->
  Forall2 (resolves B) (selectedFiles st) urls ->
  exists log,
    convertImages B st =
      Some ({| selectedFiles := selectedFiles st;
               convertedImages := named 0 (selectedFiles st) urls;
               isConverting := false; error := None |}, log)
    /\ attempted log = selectedFiles st
    /\ oneByOne B (selectedFiles st) log
    /\ frames log =
         flat_map (fun j =>
                     let v := inFlight st
                                (take j (named 0 (selectedFiles st) urls)) in
                     [v; v])
                  (seq 0 (length (selectedFiles st))).
Proof.
  intros Hne Hres. unfold convertImages.
  destruct (selectedFiles st) as [|f0 fs] eqn:Hsel; [done|].
  change (length (f0 :: fs) =? 0)%nat with false. cbv iota.
  rewrite forLoop_batch by (simpl; lia).
  change (set_convertedImages [] (set_error None (set_isConverting true st)))
    with (inFlight st []).
  change (selectedFiles (inFlight st [])) with (selectedFiles st).
  rewrite Hsel, drop_0.
  destruct (batch_resolves _ _ Hres 0 (inFlight st []))
    as (log & -> & Hatt & Hone & Hfr).
  exists log. rewrite Hfr. repeat split; try done.
  rewrite stage_inFlight, <- (length_named 0 (f0 :: fs) urls),
    firstn_all by (by eapply Forall2_length).
  unfold inFlight, set_isConverting. simpl. by rewrite Hsel.
Qed.

(** A run whose first failing file is [f], with [pre] before it. *)
Lemma convertImages_rejects st pre urls f message post :
  selectedFiles st = pre ++ f :: post ->
  Forall2 (resolves B) pre urls -> rejects B f message ->
  exists log extra,
    convertImages B st =
      Some ({| selectedFiles := selectedFiles st;
               convertedImages := named 0 pre urls;
               isConverting := false;
               error := Some ("Error converting images: " +:+ message) |},
            log ++ [ConsoleError "Conversion error:" message])
    /\ attempted log = pre ++ [f]
    /\ oneByOne B (pre ++ [f]) log
    /\ frames log =
         flat_map (fun j => let v := inFlight st (take j (named 0 pre urls))
                            in [v; v])
                  (seq 0 (length pre))
         ++ inFlight st (named 0 pre urls) :: extra
    /\ Forall (eq (inFlight st (named 0 pre urls))) extra.
Proof.
  intros Hsel Hres Hrej. unfold convertImages.
  replace (length (selectedFiles st) =? 0)%nat with false
    by (rewrite Hsel, length_app; simpl; symmetry; apply Nat.eqb_neq; lia).
  rewrite forLoop_batch by (simpl; lia).
  change (set_convertedImages [] (set_error None (set_isConverting true st)))
    with (inFlight st []).
  change (selectedFiles (inFlight st [])) with (selectedFiles st).
  rewrite Hsel, drop_0.
  destruct (batch_rejects _ _ _ _ post Hres Hrej 0 (inFlight st []))
    as (log & extra & -> & Hatt & Hone & Hfr & Hex).
  exists log, extra. rewrite Hfr.
  rewrite !stage_inFlight in *.
  rewrite <- (length_named 0 pre urls), firstn_all in *
    by (by eapply Forall2_length).
  repeat split; try done.
  unfold inFlight, set_isConverting, set_error. simpl. by rewrite Hsel.
Qed.

End Loop.

(** ** Sequential names *)

Section Names.

Lemma string_app_inv_tail (s s' t : string) : s +:+ t = s' +:+ t -> s = s'.
Proof.
  revert s'. induction s as [|c s IH]; intros [|c' s'] H.
  - done.
  - apply (f_equal String.length) in H.
    rewrite !string_length_app in H. simpl in H. lia.
  - apply (f_equal String.length) in H.
    rewrite !string_length_app in H. simpl in H. lia.
  - injection H as -> H. f_equal. by apply IH.
Qed.

Lemma fileName_inj : Inj (=) (=) fileName.
Proof.
  intros a b H. unfold fileName in H.
  apply (inj (String.app "img-")) in H.
  apply string_app_inv_tail in H. by apply (inj pretty) in H.
Qed.

Lemma named_lookup i files urls j r :
  named i files urls !! j = Some r ->
  name r = fileName (i + j + 1) /\ files !! j = Some (originalFile r).
Proof.
  revert i urls j.
  induction files as [|file files IH]; intros i [|u urls] [|j] H;
    simpl in *; try done.
  - simplify_eq. simpl. by rewrite Nat.add_0_r.
  - apply IH in H as [-> H]. split; [f_equal; lia | done].
Qed.

Lemma NoDup_sequential (results : list ConversionResult) :
  (forall j r, results !! j = Some r -> name r = fileName (j + 1)) ->
  NoDup (name <$> results).
Proof.
  intros H. apply NoDup_alt. intros i j x Hi Hj.
  apply list_lookup_fmap_Some in Hi as (ri & -> & Hri).
  apply list_lookup_fmap_Some in Hj as (rj & Heq & Hrj).
  rewrite (H _ _ Hri), (H _ _ Hrj) in Heq.
  apply fileName_inj in Heq. lia.
Qed.

End Names.

(** ** convertImages: a run *)

Section Run.
Context (B : Browser).

(** Every run over a non-empty selection returns; what it leaves and what
    the page was rendered from on the way. *)
Lemma convertImages_outcome st :
  selectedFiles st <> [] ->
  exists st' log results tail,
    convertImages B st = Some (st', log)
    /\ selectedFiles st' = selectedFiles st
    /\ convertedImages st' = results
    /\ isConverting st' = false
    /\ (forall j r, results !! j = Some r ->
          name r = fileName (j + 1)
          /\ selectedFiles st !! j = Some (originalFile r))
    /\ frames log =
         flat_map (fun j => let v := inFlight st (take j results) in [v; v])
                  (seq 0 (length results))
         ++ tail
    /\ Forall (eq (inFlight st results)) tail
    /\ ((error st' = None /\ tail = []
         /\ length results = length (selectedFiles st))
        \/ (exists message,
              error st' = Some ("Error converting images: " +:+ message)
              /\ tail <> []
              /\ length results < length (selectedFiles st))).
Proof.
  intros Hne.
  destruct (first_failure B (selectedFiles st))
    as [[urls H]|(pre & urls & f & m & post & Hsel & H & Hm)].
  - destruct (convertImages_resolves B st urls Hne H)
      as (log & Hrun & _ & _ & Hfr).
    eexists _, log, _, []. split; [exact Hrun|]. simpl.
    rewrite app_nil_r, length_named by (by eapply Forall2_length).
    repeat split; try done.
    + by apply named_lookup in H0 as [-> _].
    + by apply named_lookup in H0 as [_ ?].
    + left. done.
  - destruct (convertImages_rejects B st pre urls f m post Hsel H Hm)
      as (log & extra & Hrun & _ & _ & Hfr & Hex).
    eexists _, _, _, (_ :: extra). split; [exact Hrun|]. simpl.
    rewrite frames_app, Hfr. simpl. rewrite app_nil_r.
    rewrite length_named by (by eapply Forall2_length).
    repeat split; try done.
    + by apply named_lookup in H0 as [-> _].
    + apply named_lookup in H0 as [_ ?]. rewrite Hsel.
      by apply lookup_app_l_Some.
    + by constructor.
    + right. exists m. repeat split; [done|].
      rewrite Hsel, length_app. simpl. lia.
Qed.

Lemma convertImages_empty st :
  selectedFiles st = [] -> convertImages B st = Some (st, []).
Proof. intros H. unfold convertImages. by rewrite H. Qed.

Lemma convertImages_total st :
  exists st' log, convertImages B st = Some (st', log).
Proof.
  destruct (selectedFiles st) as [|f fs] eqn:E.
  - eexists _, _. by apply convertImages_empty.
  - destruct (convertImages_outcome st) as (st' & log & ? & ? & H & _);
      [by rewrite E | by exists st', log].
Qed.

End Run.

(** ** The states between operations *)

Section Reachable.

Lemma downloadAllImages_state Z st :
  (downloadAllImages Z st).1 = st
  \/ exists message,
       (downloadAllImages Z st).1 =
         set_error (Some ("Error creating zip file: " +:+ message)) st.
Proof.
  unfold downloadAllImages.
  destruct (length (convertedImages st) =? 0)%nat; [by left|].
  destruct (exportBody Z st) as [log [[]|m]]; [by left | right; by exists m].
Qed.

(** Between operations no run is in flight, and the results are numbered
    from 1 in their order. *)
Lemma reachable_invariant st :
  reachable st ->
  isConverting st = false
  /\ (forall j r, convertedImages st !! j = Some r ->
        name r = fileName (j + 1))
  /\ (selectedFiles st = [] -> convertedImages st = [] /\ error st = None).
Proof.
  induction 1 as [|files st _ IH|B st st' log _ IH Hrun|Z st _ IH].
  - done.
  - split; [apply IH | done].
  - destruct (selectedFiles st) as [|f fs] eqn:E.
    + rewrite convertImages_empty in Hrun by done.
      injection Hrun as <- _. repeat split; intros; by apply IH.
    + destruct (convertImages_outcome B st)
        as (st'' & log' & results & tail & Hrun' & Hsel & Hres & Hflag
            & Hnames & _); [by rewrite E|].
      rewrite Hrun in Hrun'. simplify_eq. split; [done|]. split.
      * intros j r Hr. by apply Hnames in Hr as [? _].
      * by rewrite Hsel, E.
  - destruct IH as (Hflag & Hnames & Hempty).
    unfold downloadAllImages.
    destruct (length (convertedImages st) =? 0)%nat eqn:E; [done|].
    destruct (exportBody Z st) as [log [[]|m]]; [done|]. simpl.
    split; [done|]. split; [done|].
    intros Hsel. apply Hempty in Hsel as [Hnil _]. by rewrite Hnil in E.
Qed.

End Reachable.


(** C6. A selection leaves [convertedImages] empty, whatever is selected
    and whatever was there.  A run over a non-empty selection returns; the
    first state the page is rendered from while it waits has
    [convertedImages] empty; and the run is the same run, with the same
    result, whatever [convertedImages] held before it.  On an empty
    selection [convertImages] returns at once and resets nothing, and there
    is nothing to reset: between operations an empty selection comes with
    empty results. *)
Theorem convertedImages_reset :
  (forall files st, convertedImages (handleFileSelect files st) = [])
  /\ (forall B st,
        reachable st -> selectedFiles st = [] ->
        convertImages B st = Some (st, []) /\ convertedImages st = [])
  /\ (forall B st,
        selectedFiles st <> [] ->
        exists st' log view rest,
          convertImages B st = Some (st', log)
          /\ frames log = view :: rest
          /\ convertedImages view = []
          /\ forall previous,
               convertImages B (set_convertedImages previous st)
               = Some (st', log)).
Proof.
  split; [done|]. split.
  { intros B st Hst Hsel. split; [by apply convertImages_empty|].
    by apply reachable_invariant in Hst as (_ & _ & [? _]). }
  intros B st Hne.
  destruct (convertImages_outcome B st Hne)
    as (st' & log & results & tail & Hrun & _ & Hres & Hflag & _ & Hfr
        & Htail & Hcase).
  assert (exists view rest, frames log = view :: rest
                            /\ convertedImages view = [])
    as (view & rest & Hview & Hempty).
  { rewrite Hfr. destruct results as [|r results]; simpl.
    - destruct Hcase as [(_ & _ & Hlen)|(m & _ & ? & _)].
      + destruct (selectedFiles st); done.
      + destruct tail as [|v tail]; [done|].
        apply Forall_cons in Htail as [<- _]. by eexists _, _.
    - by eexists _, _. }
  exists st', log, view, rest. repeat split; try done.
  intros previous. rewrite <- Hrun. unfold convertImages. simpl.
  destruct (length (selectedFiles st) =? 0)%nat eqn:E; [|done].
  apply Nat.eqb_eq in E. by destruct (selectedFiles st).
Qed.

(** ** downloadAllImages *)

Section Exporter.
Context (Z : Page).

(** The [try] block, by the first call that throws. *)
Lemma exportBody_cases this :
  exportBody Z this =
    match generateAsync Z (foldl addImage [] (convertedImages this)) with
    | Throw message => ([GenerateAsync; Idle this], Throw message)
    | Normal blob =>
        let link := zipLink Z blob in
        let created := [GenerateAsync; Idle this; CreateObjectURL blob] in
        match appendChild Z link with
        | Throw message => (created ++ [AppendChild link], Throw message)
        | Normal _ =>
            match click Z link with
            | Throw message =>
                (created ++ [AppendChild link; Click link], Throw message)
            | Normal _ =>
                match removeChild Z link with
                | Throw message =>
                    (created ++ [AppendChild link; Click link;
                                 RemoveChild link], Throw message)
                | Normal _ =>
                    (created ++ [AppendChild link; Click link;
                                 RemoveChild link;
                                 RevokeObjectURL (createObjectURL Z blob)],
                     Normal tt)
                end
            end
        end
    end.
Proof.
  unfold exportBody, zipLink, mbind, Eff_bind, settle, call, emit. simpl.
  destruct (generateAsync Z _) as [blob|m]; simpl; [|done].
  destruct (appendChild Z _) as [[]|m]; simpl; [|done].
  destruct (click Z _) as [[]|m]; simpl; [|done].
  by destruct (removeChild Z _) as [[]|m].
Qed.

Ltac export_cases :=
  unfold downloadAllImages; rewrite exportBody_cases;
  destruct (length _ =? 0)%nat eqn:?; simpl;
  [|destruct (generateAsync Z _) as [?blob|?message] eqn:?; simpl;
    [destruct (appendChild Z _) as [[]|?message] eqn:?; simpl;
     [destruct (click Z _) as [[]|?message] eqn:?; simpl;
      [destruct (removeChild Z _) as [[]|?message] eqn:?; simpl|]|]|]].

(** While an export waits for the archive the page is rendered once,
    from the state the export was started in. *)
Lemma downloadAllImages_frames this :
  frames (downloadAllImages Z this).2 =
    if (length (convertedImages this) =? 0)%nat then [] else [this].
Proof. export_cases; done. Qed.

Lemma zipFile_fresh entry data (zip : Zip) :
  entry ∉ zip.*1 -> zipFile entry data zip = zip ++ [(entry, data)].
Proof.
  induction zip as [|[n d] zip IH]; intros Hfresh; simpl; [done|].
  apply not_elem_of_cons in Hfresh as [Hne Hfresh].
  destruct (String.eqb n entry) eqn:E.
  - apply String.eqb_eq in E. by subst.
  - by rewrite IH.
Qed.

Lemma foldl_addImage (images : list ConversionResult) (zip : Zip) :
  NoDup (zip.*1 ++ (name <$> images)) ->
  foldl addImage zip images =
    zip ++ ((fun image => (name image, payload image)) <$> images).
Proof.
  revert zip. induction images as [|image images IH]; intros zip Hnd; simpl.
  - by rewrite app_nil_r.
  - unfold addImage at 2. fold (payload image).
    apply NoDup_app in Hnd as (Hzip & Hdisj & Himgs).
    apply NoDup_cons in Himgs as [Hfresh Himgs].
    rewrite zipFile_fresh by (intros Hin; apply (Hdisj _ Hin); by left).
    rewrite IH, <- app_assoc; [done|].
    rewrite fmap_app. simpl. rewrite <- app_assoc. simpl.
    apply NoDup_app. repeat split; [done| |by apply NoDup_cons].
    intros x Hx Hin. apply (Hdisj _ Hx). done.
Qed.

Lemma generateAsync_decodes (raw : ConversionResult -> string) images :
  (forall image, image ∈ images ->
     base64 Z (payload image) = Normal (raw image)) ->
  generateAsync Z ((fun image => (name image, payload image)) <$> images)
  = Normal ((fun image => (name image, raw image)) <$> images).
Proof.
  induction images as [|image images IH]; intros H; [done|].
  rewrite !fmap_cons. cbn [generateAsync].
  rewrite H by left. rewrite IH; [done|].
  intros ? ?. apply H. by right.
Qed.

Lemma split_no_sep sep s : occurs sep s = false -> JS.split sep s = [s].
Proof.
  induction s as [|c s IH]; simpl; [done|].
  intros [Hc Hs]%orb_false_iff. rewrite Hc, IH; done.
Qed.

Lemma split_app sep header rest :
  occurs sep header = false ->
  JS.split sep (header +:+ String sep rest) = header :: JS.split sep rest.
Proof.
  induction header as [|c header IH]; intros H.
  - change ("" +:+ String sep rest) with (String sep rest). simpl.
    by rewrite Ascii.eqb_refl.
  - change (String c header +:+ String sep rest)
      with (String c (header +:+ String sep rest)).
    simpl in *. apply orb_false_iff in H as [Hc Hs].
    by rewrite Hc, IH.
Qed.

(** The payload of a data URL whose data holds no comma is that data. *)
Lemma payload_dataURL image header data :
  url image = header +:+ String "," data ->
  occurs "," header = false -> occurs "," data = false ->
  payload image = Some data.
Proof.
  intros Hurl Hh Hd. unfold payload.
  by rewrite Hurl, split_app, split_no_sep.
Qed.

(** An export in which JSZip decodes every payload and the DOM calls
    return: the log, with the archive that is offered. *)
Lemma downloadAllImages_ok (raw : ConversionResult -> string) this :
  convertedImages this <> [] ->
  NoDup (name <$> convertedImages this) ->
  (forall image, image ∈ convertedImages this ->
     base64 Z (payload image) = Normal (raw image)) ->
  (forall link, appendChild Z link = Normal tt
                /\ click Z link = Normal tt
                /\ removeChild Z link = Normal tt) ->
  let blob := (fun image => (name image, raw image)) <$> convertedImages this
  in
  downloadAllImages Z this =
    (this, [GenerateAsync; Idle this; CreateObjectURL blob;
            AppendChild (zipLink Z blob); Click (zipLink Z blob);
            RemoveChild (zipLink Z blob);
            RevokeObjectURL (createObjectURL Z blob)]).
Proof.
  intros Hne Hnd Hraw Hdom blob.
  unfold downloadAllImages. rewrite exportBody_cases.
  destruct (convertedImages this) as [|r rs] eqn:E; [done|].
  change (length (r :: rs) =? 0)%nat with false. cbv iota.
  rewrite foldl_addImage by done.
  rewrite app_nil_l, (generateAsync_decodes raw) by done.
  fold blob. cbv zeta.
  destruct (Hdom (zipLink Z blob)) as (-> & -> & ->). done.
Qed.

End Exporter.

(** C4. On an empty result set [downloadAllImages] does nothing: the state
    is unchanged, so no error is set, and no call is made, so no archive is
    produced.  On the non-empty result set of a state the component can be
    in, when JSZip decodes every payload and the DOM calls return, one
    archive is generated and one download is triggered, under the name
    "converted_images.zip"; the archive has one entry per result, in order,
    named as the result and holding the bytes that decoding the result's
    payload gives; the payload of a data URL is what follows its comma; no
    error is set. *)
Theorem downloadAllImages_archive (Z : Page) (st : BatchState) :
  (convertedImages st = [] -> downloadAllImages Z st = (st, []))
  /\ (forall raw : ConversionResult -> string,
        reachable st ->
        convertedImages st <> [] ->
        (forall image, image ∈ convertedImages st ->
           base64 Z (payload image) = Normal (raw image)) ->
        (forall link, appendChild Z link = Normal tt
                      /\ click Z link = Normal tt
                      /\ removeChild Z link = Normal tt) ->
        let blob :=
          (fun image => (name image, raw image)) <$> convertedImages st in
        downloadAllImages Z st =
          (st, [GenerateAsync; Idle st; CreateObjectURL blob;
                AppendChild (zipLink Z blob); Click (zipLink Z blob);
                RemoveChild (zipLink Z blob);
                RevokeObjectURL (createObjectURL Z blob)])
        /\ downloads (downloadAllImages Z st).2 =
             [("converted_images.zip", createObjectURL Z blob)]
        /\ length blob = length (convertedImages st)
        /\ NoDup blob.*1)
  /\ (forall image header data,
        url image = header +:+ String "," data ->
        occurs "," header = false -> occurs "," data = false ->
        payload image = Some data).
Proof.
  split; [|split].
  - intros H. unfold downloadAllImages. by rewrite H.
  - intros raw Hst Hne Hraw Hdom blob.
    assert (NoDup (name <$> convertedImages st)) as Hnd.
    { apply NoDup_sequential. by apply reachable_invariant. }
    pose proof (downloadAllImages_ok Z raw st Hne Hnd Hraw Hdom) as Hrun.
    cbv zeta in Hrun. fold blob in Hrun. rewrite Hrun.
    split; [done|]. split; [done|].
    split; [by unfold blob; rewrite length_fmap|].
    unfold blob. by rewrite <- list_fmap_compose.
  - apply payload_dataURL.
Qed.

(** An export whose three DOM calls on the link, [appendChild], [click]
    and [removeChild], return leaves no object URL behind: the one it
    created is revoked before it returns. *)
Lemma downloadAllImages_releases (Z : Page) (st : BatchState) :
  (forall link, appendChild Z link = Normal tt
                /\ click Z link = Normal tt
                /\ removeChild Z link = Normal tt) ->
  live Z (downloadAllImages Z st).2 = [].
Proof.
  intros Hdom. unfold downloadAllImages. rewrite exportBody_cases.
  destruct (length _ =? 0)%nat; [done|].
  destruct (generateAsync Z _) as [blob|m]; [|done]. cbv zeta.
  destruct (Hdom (zipLink Z blob)) as (-> & -> & ->).
  unfold live. simpl. by rewrite String.eqb_refl.
Qed.

(** C10. [convertImages] returns with [selectedFiles] as it found it, and
    every state the page is rendered from during the run has that same
    selection.  [downloadAllImages] leaves [selectedFiles],
    [convertedImages] and [isConverting] as they were, also in what the page
    is rendered from while it waits; it returns the state it was given, or,
    when the export fails, that state with [error] alone replaced, by
    "Error creating zip file: " and the failure's message. *)
Theorem operations_frame :
  (forall B st,
     exists st' log,
       convertImages B st = Some (st', log)
       /\ selectedFiles st' = selectedFiles st
       /\ Forall (fun view => selectedFiles view = selectedFiles st)
                 (frames log))
  /\ (forall Z st,
        let st' := (downloadAllImages Z st).1 in
        selectedFiles st' = selectedFiles st
        /\ convertedImages st' = convertedImages st
        /\ isConverting st' = isConverting st
        /\ Forall (eq st) (frames (downloadAllImages Z st).2)
        /\ (st' = st
            \/ exists message,
                 st' = set_error
                         (Some ("Error creating zip file: " +:+ message)) st)).
Proof.
  split.
  - intros B st. destruct (selectedFiles st) as [|f fs] eqn:E.
    + exists st, []. rewrite convertImages_empty by done. by repeat split.
    + destruct (convertImages_outcome B st)
        as (st' & log & results & tail & Hrun & Hsel & _ & _ & _ & Hfr
            & Htail & _); [by rewrite E|].
      exists st', log. rewrite E in *. repeat split; try done.
      rewrite Hfr. apply Forall_app. split.
      * apply Forall_flat_map, Forall_forall. intros j _.
        by repeat constructor.
      * eapply Forall_impl; [exact Htail|]. by intros ? <-.
  - intros Z st st'. subst st'.
    rewrite downloadAllImages_frames.
    assert (Forall (eq st)
              (if (length (convertedImages st) =? 0)%nat then [] else [st]))
      by (destruct (_ =? _)%nat; by repeat constructor).
    destruct (downloadAllImages_state Z st) as [Heq|[m Heq]]; rewrite Heq;
      repeat split; eauto.
Qed.


(** ** The sample inputs, run *)

Section Samples.
Import Examples.

(** The specification's filter scenario. *)
Example select_a_b_c :
  selectedFiles (handleFileSelect [a_webp; b_png; c_WEBP] data)
  = [a_webp; c_WEBP].
Proof. reflexivity. Qed.

Example fileName_1_12 :
  fileName 1 = "img-1.jpg" /\ fileName 12 = "img-12.jpg".
Proof. split; reflexivity. Qed.

(** The specification's conversion scenario. *)
Lemma partial_run :
  exists log,
    convertImages browser (selected [a_webp; b_webp])
    = Some (after_partial_run, log).
Proof. eexists. reflexivity. Qed.

Lemma after_partial_run_reachable : reachable after_partial_run.
Proof.
  destruct partial_run as [log Hlog].
  eapply reachable_convert; [|exact Hlog].
  apply reachable_select, reachable_data.
Qed.

(** A run whose first file already fails: no result, the error, and
    the flag down again. *)
Example full_failure_run :
  fst <$> convertImages browser (selected [b_webp; a_webp])
  = Some {| selectedFiles := [b_webp; a_webp]; convertedImages := [];
            isConverting := false;
            error := Some "Error converting images: Failed to load image: b.webp" |}.
Proof. reflexivity. Qed.

Lemma after_full_run_reachable : reachable after_full_run.
Proof.
  apply (reachable_convert browser (selected [a_webp; d_webp]) _
           (default [] (snd <$> convertImages browser
                                  (selected [a_webp; d_webp])))).
  - apply reachable_select, reachable_data.
  - reflexivity.
Qed.

End Samples.

(** C4, on the two results of a run: one archive, with the entries
    "img-1.jpg" and "img-2.jpg". *)
Lemma downloadAllImages_archive_witness :
  downloadAllImages Examples.page Examples.after_full_run =
    (Examples.after_full_run,
     [GenerateAsync; Idle Examples.after_full_run;
      CreateObjectURL [("img-1.jpg", "bytes of /9j/4AAQ");
                       ("img-2.jpg", "bytes of /9j/4AAQ")];
      AppendChild (mkLink "blob:converted" "converted_images.zip");
      Click (mkLink "blob:converted" "converted_images.zip");
      RemoveChild (mkLink "blob:converted" "converted_images.zip");
      RevokeObjectURL "blob:converted"])
  /\ downloads (downloadAllImages Examples.page Examples.after_full_run).2
     = [("converted_images.zip", "blob:converted")].
Proof.
  destruct (downloadAllImages_archive Examples.page Examples.after_full_run)
    as (_ & H & _).
  destruct (H (fun image => "bytes of /9j/4AAQ")) as (Hrun & Hdl & _).
  - apply after_full_run_reachable.
  - discriminate.
  - intros image Hin.
    repeat (apply elem_of_cons in Hin as [->|Hin]); try reflexivity.
    by apply elem_of_nil in Hin.
  - intros link. repeat split; reflexivity.
  - split; [exact Hrun | exact Hdl].
Defined.


(** On the page where [click] throws, the export returns with the object
    URL it created still live; the handler has only set [error]. *)
Example export_leaks_when_click_throws :
  live Examples.page_click_throws
    (downloadAllImages Examples.page_click_throws
       Examples.after_partial_run).2
  = ["blob:converted"]
  /\ (downloadAllImages Examples.page_click_throws
        Examples.after_partial_run).1
     = set_error (Some "Error creating zip file: click failed")
         Examples.after_partial_run
  /\ calls (downloadAllImages Examples.page_click_throws
              Examples.after_partial_run).2
     = [GenerateAsync;
        CreateObjectURL [("img-1.jpg", "bytes of /9j/4AAQ")];
        AppendChild (mkLink "blob:converted" "converted_images.zip");
        Click (mkLink "blob:converted" "converted_images.zip");
        ConsoleError "Error creating zip file:" "click failed"].
Proof. by vm_compute. Qed.

(** C9: in a run over two files that both convert, the page is rendered
    twice with the first result, and the results section shown, while the
    run is waiting on the second file. *)
Lemma results_shown_during_run :
  exists st' log,
    convertImages Examples.browser
      (Examples.selected [Examples.a_webp; Examples.d_webp])
    = Some (st', log)
    /\ (fun view => (isConverting view, showsResults view,
                     name <$> convertedImages view)) <$> frames log
       = [(true, false, []); (true, false, []);
          (true, true, ["img-1.jpg"]); (true, true, ["img-1.jpg"])].
Proof. eexists _, _. split; [reflexivity|]. by vm_compute. Qed.


(** C6, on a run started over the results of an earlier one. *)
Lemma convertedImages_reset_witness :
  exists st' log view rest,
    convertImages Examples.browser Examples.after_full_run = Some (st', log)
    /\ frames log = view :: rest
    /\ convertedImages view = []
    /\ forall previous,
         convertImages Examples.browser
           (set_convertedImages previous Examples.after_full_run)
         = Some (st', log).
Proof.
  destruct convertedImages_reset as (_ & _ & Hrun).
  apply (Hrun Examples.browser Examples.after_full_run).
  vm_compute. discriminate.
Defined.


(** * More of the component *)

(** ** Runs *)

Section Runs.
Context (B : Browser).

(** A run looks at nothing of the state but the selection. *)
Lemma convertImages_selection_only st1 st2 :
  selectedFiles st1 = selectedFiles st2 ->
  selectedFiles st1 <> [] ->
  convertImages B st1 = convertImages B st2.
Proof.
  intros Heq Hne. unfold convertImages. rewrite <- Heq.
  destruct (length (selectedFiles st1) =? 0)%nat eqn:E.
  - apply Nat.eqb_eq in E. by destruct (selectedFiles st1).
  - replace (set_convertedImages [] (set_error None (set_isConverting true st2)))
      with (set_convertedImages [] (set_error None (set_isConverting true st1)));
      [done|].
    unfold set_convertedImages, set_error, set_isConverting. simpl.
    by rewrite Heq.
Qed.

End Runs.

(** X4. Running the conversion again over the same selection replaces the
    results, it does not add to them: the second run ends in the state the
    first one ended in, with the same log. *)
Theorem rerun_replaces_results
    (B : Browser) (st st' : BatchState) (log : list Event) :
  selectedFiles st <> [] ->
  convertImages B st = Some (st', log) ->
  convertImages B st' = Some (st', log).
Proof.
  intros Hne Hrun.
  destruct (convertImages_outcome B st Hne)
    as (st'' & log' & results & tail & Hrun' & Hsel & _).
  rewrite Hrun in Hrun'. injection Hrun' as <- <-.
  rewrite <- Hrun. apply convertImages_selection_only; by rewrite Hsel.
Qed.

(** ** What the page shows *)

Section Shown.

Lemma convertImages_frames_inFlight B st :
  selectedFiles st <> [] ->
  exists st' log,
    convertImages B st = Some (st', log)
    /\ Forall (fun view => exists results, view = inFlight st results)
              (frames log).
Proof.
  intros Hne.
  destruct (convertImages_outcome B st Hne)
    as (st' & log & results & tail & Hrun & _ & _ & _ & _ & Hfr & Htail & _).
  exists st', log. split; [done|]. rewrite Hfr. apply Forall_app. split.
  - apply Forall_flat_map, Forall_forall. intros j _.
    repeat constructor; by eexists.
  - eapply Forall_impl; [exact Htail|]. intros ? <-. by eexists.
Qed.

Lemma filter_idempotent {A} (p : A -> bool) (l : list A) :
  List.filter p (List.filter p l) = List.filter p l.
Proof.
  induction l as [|x l IH]; simpl; [done|].
  destruct (p x) eqn:E; simpl; [rewrite E; by f_equal | done].
Qed.

Lemma filter_nil_iff {A} (p : A -> bool) (l : list A) :
  List.filter p l = [] <-> Forall (fun x => p x = false) l.
Proof.
  induction l as [|x l IH]; simpl; [by split|].
  destruct (p x) eqn:E; split.
  - done.
  - intros H. apply Forall_cons in H as [H _]. congruence.
  - intros H. constructor; [done | by apply IH].
  - intros H. apply Forall_cons in H as [_ H]. by apply IH.
Qed.

End Shown.

(** X5. Between operations [error] is empty or one of the two messages
    the component builds, "Error converting images: ..." after a run and
    "Error creating zip file: ..." after an export.  Such a message is never
    the empty string, so the error area's [v-if="error"] shows every error
    there is: it is shown exactly when [error] is not null. *)
Theorem error_is_shown_when_set (st : BatchState) :
  reachable st ->
  (error st = None
   \/ (exists message,
         error st = Some ("Error converting images: " +:+ message))
   \/ (exists message,
         error st = Some ("Error creating zip file: " +:+ message)))
  /\ (showsError st = true <-> error st <> None).
Proof.
  intros Hst.
  assert (error st = None
          \/ (exists message,
                error st = Some ("Error converting images: " +:+ message))
          \/ (exists message,
                error st = Some ("Error creating zip file: " +:+ message)))
    as Hforms.
  { induction Hst as [|files st _ IH|B st st' log _ IH Hrun|Z st _ IH].
    - by left.
    - by left.
    - destruct (selectedFiles st) as [|f fs] eqn:E.
      + rewrite convertImages_empty in Hrun by done. by simplify_eq.
      + destruct (convertImages_outcome B st)
          as (st'' & log' & results & tail & Hrun' & _ & _ & _ & _ & _ & _
              & Hcase); [by rewrite E|].
        rewrite Hrun in Hrun'. simplify_eq.
        destruct Hcase as [(? & _)|(m & ? & _)]; [by left|].
        right; left. by exists m.
    - destruct (downloadAllImages_state Z st) as [->|[m ->]]; [done|].
      right; right. by exists m. }
  split; [done|]. unfold showsError.
  destruct Hforms as [->|[[m ->]|[m ->]]]; split; done.
Qed.

(** X6. Between operations the convert button is labelled "Convert to
    JPEG" and is disabled exactly when nothing is selected.  In every state
    the page is rendered from while a run waits, the button is disabled and
    labelled "Converting...": no second run can be started from it before
    the first has ended. *)
Theorem convert_button :
  (forall st,
     reachable st ->
     convertLabel st = "Convert to JPEG"
     /\ (convertDisabled st = true <-> selectedFiles st = []))
  /\ (forall B st,
        selectedFiles st <> [] ->
        exists st' log,
          convertImages B st = Some (st', log)
          /\ Forall (fun view =>
                       convertDisabled view = true
                       /\ convertLabel view = "Converting...")
                    (frames log)).
Proof.
  split.
  - intros st Hst. apply reachable_invariant in Hst as (Hflag & _).
    unfold convertLabel, convertDisabled. rewrite Hflag, orb_false_r.
    split; [done|]. rewrite Nat.eqb_eq. by destruct (selectedFiles st).
  - intros B st Hne.
    destruct (convertImages_frames_inFlight B st Hne)
      as (st' & log & Hrun & Hfr).
    exists st', log. split; [done|].
    eapply Forall_impl; [exact Hfr|]. intros view [results ->].
    unfold convertDisabled, convertLabel. simpl. by rewrite orb_true_r.
Qed.

(** X7. After a selection the page shows no results, no result link and
    no error, whatever it showed before, and an export is a no-op.  The
    upload info is shown exactly when a WebP file was among the picked
    ones; the number it shows is the number of files kept, never more than
    the number picked.  When none was kept nothing tells the user so, and
    [convertImages] does nothing either. *)
Theorem selection_feedback (files : list File) (st : BatchState) :
  let st' := handleFileSelect files st in
  showsResults st' = false
  /\ imageLinks st' = []
  /\ showsError st' = false
  /\ (forall Z, downloadAllImages Z st' = (st', []))
  /\ (uploadInfo st' = None <-> Forall (fun file => ~ WebP file) files)
  /\ (forall n, uploadInfo st' = Some n ->
        n = length (selectedFiles st') /\ 0 < n <= length files)
  /\ (Forall (fun file => ~ WebP file) files ->
        forall B, convertImages B st' = Some (st', [])).
Proof.
  intros st'.
  assert (selectedFiles st' = [] <-> Forall (fun file => ~ WebP file) files)
    as Hnone.
  { unfold st'. simpl. rewrite filter_nil_iff. apply Forall_iff. intros file.
    rewrite <- isWebp_WebP. by destruct (isWebp file). }
  repeat split; try done.
  - unfold uploadInfo. intros H. apply Hnone.
    destruct (selectedFiles st'); [done | simpl in H; done].
  - unfold uploadInfo. intros H. apply Hnone in H. by rewrite H.
  - unfold uploadInfo in H.
    destruct (0 <? length (selectedFiles st'))%nat; by simplify_eq.
  - unfold uploadInfo in H.
    destruct (0 <? length (selectedFiles st'))%nat eqn:E; simplify_eq.
    by apply Nat.ltb_lt in E.
  - unfold uploadInfo in H.
    destruct (0 <? length (selectedFiles st'))%nat eqn:E; simplify_eq.
    unfold st'. simpl. apply List.filter_length_le.
  - intros H B. apply convertImages_empty. by apply Hnone.
Qed.

(** X8. A selection replaces the one before it: what is selected depends
    on the picked files alone.  Picking again the files a selection kept
    keeps them all and changes nothing; and the selection from two lists
    picked together is the selection from the first followed by the
    selection from the second. *)
Theorem selection_replaces (files : list File) (st : BatchState) :
  handleFileSelect (selectedFiles (handleFileSelect files st))
                   (handleFileSelect files st)
  = handleFileSelect files st
  /\ (forall previous,
        selectedFiles (handleFileSelect files (set_selectedFiles previous st))
        = selectedFiles (handleFileSelect files st))
  /\ (forall more,
        selectedFiles (handleFileSelect (files ++ more) st)
        = selectedFiles (handleFileSelect files st)
          ++ selectedFiles (handleFileSelect more st)).
Proof.
  split; [|split].
  - unfold handleFileSelect, set_error, set_convertedImages,
      set_selectedFiles. simpl. by rewrite filter_idempotent.
  - done.
  - intros more. simpl. apply List.filter_app.
Qed.

(** ** Exports *)

Section Exports.
Context (Z : Page).

Lemma generateAsync_names (zip : Zip) (blob : Archive) :
  generateAsync Z zip = Normal blob -> blob.*1 = zip.*1.
Proof.
  revert blob. induction zip as [|[n d] zip IH]; intros blob H; simpl in *.
  - by simplify_eq.
  - destruct (base64 Z d); [|done].
    destruct (generateAsync Z zip) as [rest|]; [|done].
    simplify_eq. simpl. f_equal. by apply IH.
Qed.

(** One payload JSZip refuses makes the generation fail, with the message
    of the first one refused. *)
Lemma generateAsync_throws (images : list ConversionResult) image message :
  image ∈ images ->
  base64 Z (payload image) = Throw message ->
  exists image' message',
    image' ∈ images
    /\ base64 Z (payload image') = Throw message'
    /\ generateAsync Z ((fun image => (name image, payload image)) <$> images)
       = Throw message'.
Proof.
  induction images as [|r images IH]; intros Hin Hthrow.
  - by apply elem_of_nil in Hin.
  - rewrite fmap_cons. cbn [generateAsync].
    destruct (base64 Z (payload r)) as [content|m] eqn:Hr.
    + apply elem_of_cons in Hin as [->|Hin]; [congruence|].
      destruct (IH Hin Hthrow) as (image' & m' & Hin' & Hm' & ->).
      exists image', m'. repeat split; [by right | done].
    + exists r, m. repeat split; [by left | done].
Qed.

Lemma reachable_zip st :
  reachable st ->
  foldl addImage [] (convertedImages st)
  = (fun image => (name image, payload image)) <$> convertedImages st.
Proof.
  intros Hst. rewrite foldl_addImage; [done|]. simpl.
  apply NoDup_sequential. by apply reachable_invariant.
Qed.

Lemma cut_Some c s before after :
  cut c s = Some (before, after) ->
  s = before +:+ String c after /\ occurs c before = false.
Proof.
  revert before. induction s as [|d s IH]; intros before H; simpl in H.
  - done.
  - destruct (Ascii.eqb d c) eqn:E.
    + apply Ascii.eqb_eq in E. by simplify_eq.
    + destruct (cut c s) as [[a b]|]; [|done]. simplify_eq.
      destruct (IH a eq_refl) as [-> Ha]. simpl. by rewrite E.
Qed.

Lemma cut_None c s : cut c s = None <-> occurs c s = false.
Proof.
  induction s as [|d s IH]; simpl; [done|].
  destruct (Ascii.eqb d c); simpl; [done|].
  rewrite <- IH. by destruct (cut c s) as [[a b]|].
Qed.

Lemma split_cut sep s :
  JS.split sep s =
    match cut sep s with
    | None => [s]
    | Some (before, after) => before :: JS.split sep after
    end.
Proof.
  induction s as [|d s IH]; simpl; [done|].
  destruct (Ascii.eqb d sep); [done|].
  rewrite IH. by destruct (cut sep s) as [[a b]|].
Qed.

End Exports.

Ltac export_paths Z :=
  unfold downloadAllImages; rewrite exportBody_cases;
  destruct (length _ =? 0)%nat eqn:?; simpl;
  [|destruct (generateAsync Z _) as [?blob|?message] eqn:?; simpl;
    [destruct (appendChild Z _) as [[]|?message] eqn:?; simpl;
     [destruct (click Z _) as [[]|?message] eqn:?; simpl;
      [destruct (removeChild Z _) as [[]|?message] eqn:?; simpl|]|]|]].

(** X9. An export triggers at most one download.  When it triggers one,
    the link is named "converted_images.zip" and points at an archive that
    was generated in full: it has an entry under the name of every result.
    When JSZip refuses the payload of a single result, the whole export
    fails: no object URL is created, nothing is appended or clicked, and
    [error] becomes "Error creating zip file: " followed by the message of
    a refused payload. *)
Theorem export_all_or_nothing (Z : Page) (st : BatchState) :
  reachable st ->
  length (downloads (downloadAllImages Z st).2) <= 1
  /\ (forall link,
        Click link ∈ (downloadAllImages Z st).2 ->
        download link = "converted_images.zip"
        /\ exists blob,
             href link = createObjectURL Z blob
             /\ blob.*1 = name <$> convertedImages st)
  /\ (forall image message,
        image ∈ convertedImages st ->
        base64 Z (payload image) = Throw message ->
        List.filter touchesPage (downloadAllImages Z st).2 = []
        /\ exists image' message',
             image' ∈ convertedImages st
             /\ base64 Z (payload image') = Throw message'
             /\ (downloadAllImages Z st).1
                = set_error
                    (Some ("Error creating zip file: " +:+ message')) st).
Proof.
  intros Hst. pose proof (reachable_zip st Hst) as Hzip.
  split; [|split].
  - export_paths Z; lia.
  - intros link.
    assert ((foldl addImage [] (convertedImages st)).*1
            = name <$> convertedImages st) as Hnames
      by (by rewrite Hzip, <- list_fmap_compose).
    export_paths Z; intros Hin;
      repeat (apply elem_of_cons in Hin as [Hin|Hin]; simplify_eq);
      try (by apply elem_of_nil in Hin).
    all: split; [done|]; eexists; split; [done|].
    all: erewrite generateAsync_names by done.
    all: exact Hnames.
  - intros image message Hin Hthrow.
    destruct (generateAsync_throws Z _ image message Hin Hthrow)
      as (image' & m' & Hin' & Hm' & Hgen).
    rewrite <- Hzip in Hgen.
    unfold downloadAllImages. rewrite exportBody_cases, Hgen.
    destruct (convertedImages st) as [|r rs] eqn:E;
      [by apply elem_of_nil in Hin|].
    simpl. split; [done|]. by exists image', m'.
Qed.

(** X10. The payload taken from a result's [url] is [undefined] exactly
    when the URL holds no comma.  Otherwise it is what stands between the
    first comma and the second, or the end when there is no second: a data
    URL is stripped of its header, and anything from a second comma on is
    dropped as well. *)
Theorem payload_between_commas (image : ConversionResult) :
  payload image =
    match cut "," (url image) with
    | None => None
    | Some (header, rest) =>
        Some match cut "," rest with
             | Some (data, dropped) => data
             | None => rest
             end
    end
  /\ (payload image = None <-> occurs "," (url image) = false)
  /\ (forall header rest,
        cut "," (url image) = Some (header, rest) ->
        url image = header +:+ String "," rest
        /\ occurs "," header = false)
  /\ (forall header data dropped,
        occurs "," header = false -> occurs "," data = false ->
        url image = header +:+ String "," (data +:+ String "," dropped) ->
        payload image = Some data).
Proof.
  assert (payload image =
            match cut "," (url image) with
            | None => None
            | Some (header, rest) =>
                Some match cut "," rest with
                     | Some (data, dropped) => data
                     | None => rest
                     end
            end) as Hcut.
  { unfold payload. rewrite split_cut.
    destruct (cut "," (url image)) as [[header rest]|]; [|done].
    rewrite split_cut. by destruct (cut "," rest) as [[data dropped]|]. }
  split; [done|]. split; [|split].
  - rewrite Hcut, <- cut_None.
    by destruct (cut "," (url image)) as [[header rest]|].
  - intros header rest. apply cut_Some.
  - intros header data dropped Hh Hd Hurl. unfold payload.
    by rewrite Hurl, !split_app.
Qed.

(** ** A run and then an export *)

Section RunExport.

Lemma named_names i files urls :
  length files = length urls ->
  name <$> named i files urls = fileName <$> seq (i + 1) (length files).
Proof.
  revert i urls. induction files as [|f files IH]; intros i [|u urls] H;
    simpl in *; try done.
  f_equal. rewrite IH by lia. by replace (S i + 1) with (S (i + 1)) by lia.
Qed.

Lemma named_urls i files urls :
  length files = length urls -> url <$> named i files urls = urls.
Proof.
  revert i urls. induction files as [|f files IH]; intros i [|u urls] H;
    simpl in *; try done.
  f_equal. apply IH. lia.
Qed.

(** The log of a conversion holds no call of [console.error]. *)
Lemma convert_no_console B this file index label message :
  ConsoleError label message ∉ (convertWebpToJpeg B this file index).1.
Proof.
  unfold convertWebpToJpeg, call.
  destruct (readAsDataURL B file) as [result|]; simpl;
    [destruct (decode B result) as [img|]; simpl;
     [destruct (toDataURL B (drawImage img) "image/jpeg" jpegQuality); simpl|]
    |];
    intros Hin;
    repeat (apply elem_of_cons in Hin as [Hin|Hin]; [done|]);
    by apply elem_of_nil in Hin.
Qed.

Lemma oneByOne_no_console B files log label message :
  oneByOne B files log -> ConsoleError label message ∉ log.
Proof.
  intros (logs & -> & Hlogs).
  induction Hlogs as [|file l files logs (this & index & ->) _ IH]; simpl.
  - apply not_elem_of_nil.
  - rewrite elem_of_app. intros [Hin|Hin]; [|done].
    by apply convert_no_console in Hin.
Qed.

End RunExport.

(** X12. A failure is reported on the console exactly when it is put in
    [error], and with the same message.  A run calls [console.error] at
    most once, as its last call, with the message that follows "Error
    converting images: " in [error]; a run that ends without an error
    never calls it. *)
Theorem run_console_matches_error (B : Browser) (st : BatchState) :
  selectedFiles st <> [] ->
  exists st' log,
    convertImages B st = Some (st', log)
    /\ ((error st' = None
         /\ forall label message, ConsoleError label message ∉ log)
        \/ (exists message quiet,
              error st' = Some ("Error converting images: " +:+ message)
              /\ log = quiet ++ [ConsoleError "Conversion error:" message]
              /\ forall label message', ConsoleError label message' ∉ quiet)).
Proof.
  intros Hne.
  destruct (first_failure B (selectedFiles st))
    as [[urls H]|(pre & urls & f & m & post & Hsel & H & Hm)].
  - destruct (convertImages_resolves B st urls Hne H)
      as (log & Hrun & _ & Hone & _).
    eexists _, log. split; [exact Hrun|]. left. split; [done|].
    intros label message. by eapply oneByOne_no_console.
  - destruct (convertImages_rejects B st pre urls f m post Hsel H Hm)
      as (log & extra & Hrun & _ & Hone & _).
    eexists _, _. split; [exact Hrun|]. right. exists m, log.
    repeat split. intros label message'. by eapply oneByOne_no_console.
Qed.

(** ** The sample inputs, again *)

Section MoreSamples.
Import Examples MoreExamples.

Lemma two_selected_nonempty : selectedFiles two_selected <> [].
Proof. vm_compute. discriminate. Qed.

Lemma full_run :
  convertImages browser two_selected = Some (after_full_run, full_run_log).
Proof. reflexivity. Qed.

End MoreSamples.

(** X4, on the run over [a.webp; d.webp], run twice. *)
Lemma rerun_replaces_results_witness :
  convertImages Examples.browser Examples.after_full_run
  = Some (Examples.after_full_run, MoreExamples.full_run_log).
Proof.
  apply (rerun_replaces_results Examples.browser MoreExamples.two_selected).
  - apply two_selected_nonempty.
  - apply full_run.
Defined.

(** X5, on the state the failed run leaves. *)
Lemma error_is_shown_when_set_witness :
  showsError Examples.after_partial_run = true
  <-> error Examples.after_partial_run <> None.
Proof.
  apply (error_is_shown_when_set Examples.after_partial_run).
  apply after_partial_run_reachable.
Defined.

(** X9, on a page whose JSZip refuses the payload. *)
Lemma export_all_or_nothing_witness :
  List.filter touchesPage
    (downloadAllImages MoreExamples.page_refuses
       Examples.after_partial_run).2 = []
  /\ error (downloadAllImages MoreExamples.page_refuses
              Examples.after_partial_run).1
     = Some "Error creating zip file: Invalid base64 input".
Proof.
  destruct (export_all_or_nothing MoreExamples.page_refuses
              Examples.after_partial_run after_partial_run_reachable)
    as (_ & _ & Hfail).
  destruct (Hfail {| name := "img-1.jpg";
                     url := "data:image/jpeg;base64,/9j/4AAQ";
                     originalFile := Examples.a_webp |}
                  "Invalid base64 input")
    as (Hquiet & image' & m' & _ & Hm' & Hst).
  - by left.
  - reflexivity.
  - split; [exact Hquiet|]. rewrite Hst.
    injection Hm' as <-. reflexivity.
Defined.

(** X12, on the run over [a.webp; b.webp]. *)
Lemma run_console_matches_error_witness :
  exists st' log,
    convertImages Examples.browser
      (Examples.selected [Examples.a_webp; Examples.b_webp])
    = Some (st', log)
    /\ ((error st' = None
         /\ forall label message, ConsoleError label message ∉ log)
        \/ (exists message quiet,
              error st' = Some ("Error converting images: " +:+ message)
              /\ log = quiet ++ [ConsoleError "Conversion error:" message]
              /\ forall label message',
                   ConsoleError label message' ∉ quiet)).
Proof.
  apply (run_console_matches_error Examples.browser
           (Examples.selected [Examples.a_webp; Examples.b_webp])).
  vm_compute. discriminate.
Defined.

(** * The run with the page alive *)

(** ** Waits *)

Section Waits.

Lemma live_handle_attempted this now :
  attempted (Live.handle this now).1 = [].
Proof. revert this. induction now as [|e now IH]; intros this; simpl; auto. Qed.

Lemma live_wait_attempted this sched :
  attempted (Live.wait this sched).1.1 = [].
Proof. destruct sched; simpl; [done|]. apply live_handle_attempted. Qed.

Lemma live_wait_head this sched :
  exists rest, (Live.wait this sched).1.1 = Idle this :: rest
               /\ attempted rest = [].
Proof.
  destruct sched as [|now later]; simpl; eexists; split; try done.
  apply live_handle_attempted.
Qed.

(** What every handler preserves is preserved by a wait. *)
Lemma live_handle_preserves (P : BatchState -> Prop) this now :
  (forall s e, P s -> P (Live.interrupt s e)) ->
  P this -> P (Live.handle this now).2.
Proof.
  intros HP. revert this. induction now as [|e now IH]; intros this H; simpl;
    [done|]. apply IH, HP, H.
Qed.

Lemma live_wait_preserves (P : BatchState -> Prop) this sched :
  (forall s e, P s -> P (Live.interrupt s e)) ->
  P this -> P (Live.wait this sched).1.2.
Proof.
  intros HP H. destruct sched; simpl; [done|].
  by apply live_handle_preserves.
Qed.

Lemma live_keeps_refl this : Live.keeps this this.
Proof. by repeat split. Qed.

Lemma live_keeps_trans a b c :
  Live.keeps a b -> Live.keeps b c -> Live.keeps a c.
Proof.
  intros (H1 & H2 & H3) (H4 & H5 & H6). repeat split; congruence.
Qed.

Lemma live_handle_calm this now :
  Live.calm now -> Live.keeps this (Live.handle this now).2.
Proof.
  intros Hcalm. revert this.
  induction Hcalm as [|e now He _ IH]; intros this; simpl.
  - apply live_keeps_refl.
  - eapply live_keeps_trans; [|apply IH]. by destruct e.
Qed.

Lemma live_wait_calm this sched :
  Live.selectionFree sched ->
  Live.keeps this (Live.wait this sched).1.2
  /\ Live.selectionFree (Live.wait this sched).2.
Proof.
  intros Hfree. destruct Hfree as [|now later Hnow Hlater]; simpl.
  - split; [apply live_keeps_refl | constructor].
  - split; [by apply live_handle_calm | done].
Qed.

Lemma live_wait_quiet this sched :
  Live.quiet sched ->
  Live.wait this sched = ([Idle this], this, tail sched)
  /\ Live.quiet (tail sched).
Proof. intros [|now later -> Hlater]; simpl; split; by try constructor. Qed.

Lemma live_quiet_selectionFree sched :
  Live.quiet sched -> Live.selectionFree sched.
Proof.
  intros H. eapply Forall_impl; [exact H|]. intros now ->. constructor.
Qed.

Lemma live_quiet_longest sched : Live.quiet sched -> Live.longest sched = 0.
Proof. induction 1 as [|now later -> _ IH]; simpl; [done|]. by rewrite IH. Qed.

Lemma live_interrupt_length this e :
  length (selectedFiles (Live.interrupt this e))
  <= max (length (selectedFiles this)) (Live.brings e).
Proof.
  destruct e as [files|m]; simpl; [|lia].
  pose proof (List.filter_length_le isWebp files). lia.
Qed.

Lemma live_handle_length this now :
  length (selectedFiles (Live.handle this now).2)
  <= max (length (selectedFiles this)) (Live.widest now).
Proof.
  revert this. induction now as [|e now IH]; intros this; simpl; [lia|].
  etrans; [apply IH|]. pose proof (live_interrupt_length this e). lia.
Qed.

Lemma live_wait_length this sched :
  max (length (selectedFiles (Live.wait this sched).1.2))
      (Live.longest (Live.wait this sched).2)
  <= max (length (selectedFiles this)) (Live.longest sched).
Proof.
  destruct sched as [|now later]; simpl; [lia|].
  pose proof (live_handle_length this now). lia.
Qed.

End Waits.

(** ** One conversion *)

Section LiveConverter.
Context (M : Live.Machine).

(** The log of a conversion starts with the read and the state the page
    is rendered from as the read starts, and holds no other read. *)
Lemma live_convert_shape file index this sched :
  exists rest,
    (Live.convertWebpToJpeg M file index this sched).1.1.1
    = ReadAsDataURL file :: Idle this :: rest
    /\ attempted rest = [].
Proof.
  unfold Live.convertWebpToJpeg. cbv zeta.
  destruct (live_wait_head this sched) as (rest & Hw & Hrest).
  destruct (readAsDataURL (Live.api M) file) as [result|]; simpl;
    [|rewrite Hw; by exists rest].
  destruct (decode (Live.api M) result) as [img|]; simpl;
    [destruct (Live.renders M img); simpl|]; rewrite Hw; simpl.
  all: eexists; (split; [reflexivity|]).
  all: rewrite ?attempted_app; simpl; rewrite ?attempted_app, Hrest; simpl.
  all: by rewrite live_wait_attempted.
Qed.

Lemma live_convert_attempted file index this sched :
  attempted (Live.convertWebpToJpeg M file index this sched).1.1.1 = [file].
Proof.
  destruct (live_convert_shape file index this sched) as (rest & -> & Hrest).
  simpl. by rewrite Hrest.
Qed.

Lemma live_convert_preserves (P : BatchState -> Prop) file index this sched :
  (forall s e, P s -> P (Live.interrupt s e)) ->
  P this -> P (Live.convertWebpToJpeg M file index this sched).1.1.2.
Proof.
  intros HP H. unfold Live.convertWebpToJpeg.
  destruct (readAsDataURL (Live.api M) file) as [result|]; simpl;
    [|by apply (live_wait_preserves P)].
  destruct (decode (Live.api M) result) as [img|]; simpl;
    [destruct (Live.renders M img); simpl|];
    (apply (live_wait_preserves P); [done|]);
    by apply (live_wait_preserves P).
Qed.

Lemma live_convert_calm file index this sched :
  Live.selectionFree sched ->
  Live.keeps this (Live.convertWebpToJpeg M file index this sched).1.1.2
  /\ Live.selectionFree (Live.convertWebpToJpeg M file index this sched).1.2.
Proof.
  intros Hfree. unfold Live.convertWebpToJpeg.
  destruct (live_wait_calm this sched Hfree) as [H1 Hfree1].
  destruct (live_wait_calm (Live.wait this sched).1.2 _ Hfree1)
    as [H2 Hfree2].
  pose proof (live_keeps_trans _ _ _ H1 H2) as H12.
  destruct (readAsDataURL (Live.api M) file) as [result|]; simpl; [|done].
  destruct (decode (Live.api M) result) as [img|]; simpl;
    [destruct (Live.renders M img); simpl|]; done.
Qed.

Lemma live_convert_quiet file index this sched :
  Live.quiet sched ->
  (Live.convertWebpToJpeg M file index this sched).1.1.2 = this
  /\ Live.quiet (Live.convertWebpToJpeg M file index this sched).1.2.
Proof.
  intros Hq. unfold Live.convertWebpToJpeg.
  destruct (live_wait_quiet this sched Hq) as [-> Hq1]. simpl.
  destruct (live_wait_quiet this _ Hq1) as [-> Hq2]. simpl.
  destruct (readAsDataURL (Live.api M) file) as [result|]; simpl; [|done].
  destruct (decode (Live.api M) result) as [img|]; simpl;
    [destruct (Live.renders M img); simpl|]; done.
Qed.

Lemma live_convert_length file index this sched :
  max (length (selectedFiles
                 (Live.convertWebpToJpeg M file index this sched).1.1.2))
      (Live.longest (Live.convertWebpToJpeg M file index this sched).1.2)
  <= max (length (selectedFiles this)) (Live.longest sched).
Proof.
  unfold Live.convertWebpToJpeg.
  pose proof (live_wait_length this sched) as H1.
  pose proof (live_wait_length (Live.wait this sched).1.2
                               (Live.wait this sched).2) as H2.
  destruct (readAsDataURL (Live.api M) file) as [result|]; simpl; [|done].
  destruct (decode (Live.api M) result) as [img|]; simpl;
    [destruct (Live.renders M img); simpl|]; lia.
Qed.

Lemma live_convert_resolves file index this sched jpegUrl :
  Live.resolves M file jpegUrl ->
  (Live.convertWebpToJpeg M file index this sched).2
  = Live.Settled (Normal {| name := fileName index; url := jpegUrl;
                            originalFile := file |}).
Proof.
  intros [result img u Hr Hd Hc He]. unfold Live.convertWebpToJpeg.
  by rewrite Hr, Hd, Hc, He.
Qed.

Lemma live_convert_rejects file index this sched message :
  Live.rejects M file message ->
  (Live.convertWebpToJpeg M file index this sched).2
  = Live.Settled (Throw message).
Proof.
  intros [Hr | result Hr Hd | result img m Hr Hd Hc He];
    unfold Live.convertWebpToJpeg.
  - by rewrite Hr.
  - by rewrite Hr, Hd.
  - by rewrite Hr, Hd, Hc, He.
Qed.

Lemma live_convert_stalls file index this sched :
  Live.stalls M file ->
  (Live.convertWebpToJpeg M file index this sched).2 = Live.Unsettled.
Proof.
  intros [result img Hr Hd Hc]. unfold Live.convertWebpToJpeg.
  by rewrite Hr, Hd, Hc.
Qed.

(** Every file converts, fails to, or is never heard of again. *)
Lemma live_verdict file :
  (exists jpegUrl, Live.resolves M file jpegUrl)
  \/ (exists message, Live.rejects M file message)
  \/ Live.stalls M file.
Proof.
  destruct (readAsDataURL (Live.api M) file) as [result|] eqn:Hr;
    [|right; left; eexists; by apply Live.ReadError].
  destruct (decode (Live.api M) result) as [img|] eqn:Hd;
    [|right; left; eexists; by eapply Live.DecodeError].
  destruct (Live.renders M img) eqn:Hc;
    [|right; right; by eapply Live.stalls_intro].
  destruct (toDataURL (Live.api M) (drawImage img) "image/jpeg" jpegQuality)
    as [u|m] eqn:He.
  - left. exists u. by eapply Live.resolves_intro.
  - right; left. exists m. by eapply Live.EncodeError.
Qed.

Lemma live_convert_settled file index this sched r :
  (Live.convertWebpToJpeg M file index this sched).2
  = Live.Settled (Normal r) ->
  exists jpegUrl,
    Live.resolves M file jpegUrl
    /\ r = {| name := fileName index; url := jpegUrl; originalFile := file |}.
Proof.
  destruct (live_verdict file) as [[u H]|[[m H]|H]].
  - rewrite (live_convert_resolves _ _ _ _ _ H). intros [= <-]. by exists u.
  - by rewrite (live_convert_rejects _ _ _ _ _ H).
  - by rewrite (live_convert_stalls _ _ _ _ H).
Qed.

End LiveConverter.

(** ** The loop *)

Section LiveLoop.
Context (M : Live.Machine).

Lemma live_after_nil r : Live.after [] r = r.
Proof. by destruct r. Qed.

Lemma live_after_app l k r :
  Live.after l (Live.after k r) = Live.after (l ++ k) r.
Proof. destruct r; simpl; by rewrite ?app_assoc. Qed.

Lemma live_stopsWith_after l r log this :
  Live.stopsWith (Live.after l r) log this ->
  exists log', log = l ++ log' /\ Live.stopsWith r log' this.
Proof.
  destruct r as [log' this' c|log' this'|]; simpl.
  - intros [[c' [= <- <- <-]]|[=]]. exists log'. split; [done|]. left.
    by exists c.
  - intros [[c' [=]]|[= <- <-]]. exists log'. split; [done|]. by right.
  - by intros [[c' [=]]|[=]].
Qed.

(** One turn of the loop. *)
Lemma live_forLoop_step fuel i this sched file :
  selectedFiles this !! i = Some file ->
  Live.forLoop M (S fuel) i this sched =
    let c := Live.convertWebpToJpeg M file (i + 1) this sched in
    match c.2 with
    | Live.Unsettled => Live.Stalls c.1.1.1 c.1.1.2
    | Live.Settled (Throw message) =>
        Live.Returns c.1.1.1 c.1.1.2 (Throw message)
    | Live.Settled (Normal convertedImage) =>
        Live.after c.1.1.1
          (Live.forLoop M fuel (S i) (push convertedImage c.1.1.2) c.1.2)
    end.
Proof.
  intros H. simpl. rewrite H.
  by destruct (Live.convertWebpToJpeg M file (i + 1) this sched)
    as [[[log this'] sched'] [[r|m]|]].
Qed.

Lemma live_forLoop_end fuel i this sched :
  selectedFiles this !! i = None ->
  Live.forLoop M (S fuel) i this sched = Live.Returns [] this (Normal tt).
Proof. intros H. simpl. by rewrite H. Qed.

(** The loop comes to its end within the fuel [convertImages] gives it:
    the counter only grows, and the selection is never longer than the
    longest list a handler brings. *)
Lemma live_forLoop_fuel fuel i this sched :
  max (length (selectedFiles this)) (Live.longest sched) < S fuel + i ->
  Live.forLoop M (S fuel) i this sched <> Live.OutOfFuel.
Proof.
  revert i this sched. induction fuel as [|fuel IH]; intros i this sched Hlt.
  - destruct (selectedFiles this !! i) as [file|] eqn:E.
    + apply lookup_lt_Some in E. lia.
    + by rewrite live_forLoop_end.
  - destruct (selectedFiles this !! i) as [file|] eqn:E;
      [|by rewrite live_forLoop_end].
    rewrite (live_forLoop_step _ _ _ _ _ E). cbv zeta.
    pose proof (live_convert_length M file (i + 1) this sched) as Hlen.
    destruct (Live.convertWebpToJpeg M file (i + 1) this sched).2
      as [[r|m]|]; try done.
    intros Hout.
    apply (IH (S i) (push r (Live.convertWebpToJpeg M file (i + 1) this
                               sched).1.1.2)
              (Live.convertWebpToJpeg M file (i + 1) this sched).1.2).
    + simpl. lia.
    + by destruct (Live.forLoop M (S fuel) _ _ _).
Qed.

(** What every handler preserves at any index, and a push of the next
    result carries to the next index, holds when the loop stops. *)
Section Invariant.
Context (P : nat -> BatchState -> Prop).
Hypothesis P_interrupt :
  forall i this e, P i this -> P i (Live.interrupt this e).
Hypothesis P_push :
  forall i this file jpegUrl,
    P i this -> Live.resolves M file jpegUrl ->
    P (S i) (push {| name := fileName (i + 1); url := jpegUrl;
                     originalFile := file |} this).

Lemma live_forLoop_preserves fuel i this sched log this' :
  P i this ->
  Live.stopsWith (Live.forLoop M fuel i this sched) log this' ->
  exists i', P i' this'.
Proof.
  revert i this sched log.
  induction fuel as [|fuel IH]; intros i this sched log HP Hstop.
  - by destruct Hstop as [[c [=]]|[=]].
  - destruct (selectedFiles this !! i) as [file|] eqn:E.
    + rewrite (live_forLoop_step _ _ _ _ _ E) in Hstop. cbv zeta in Hstop.
      pose proof (live_convert_preserves M (P i) file (i + 1) this sched
                    (P_interrupt i) HP) as HP'.
      pose proof (live_convert_settled M file (i + 1) this sched) as Hset.
      destruct (Live.convertWebpToJpeg M file (i + 1) this sched).2
        as [[r|m]|].
      * destruct (Hset r eq_refl) as (u & Hu & ->).
        apply live_stopsWith_after in Hstop as (log' & _ & Hstop).
        eapply IH; [|exact Hstop]. by apply P_push.
      * destruct Hstop as [[c [= _ <- _]]|[=]]. by exists i.
      * destruct Hstop as [[c [=]]|[= _ <-]]. by exists i.
    + rewrite live_forLoop_end in Hstop by done.
      destruct Hstop as [[c [= _ <- _]]|[=]]. by exists i.
Qed.

End Invariant.

(** While no selection is made, the files that convert are converted in
    turn and their results added, each named by its position. *)
Lemma live_loop_resolves pre urls :
  Forall2 (Live.resolves M) pre urls ->
  forall fuel this sched before rest,
    Live.selectionFree sched ->
    selectedFiles this = before ++ pre ++ rest ->
    exists log this' sched',
      Live.forLoop M (length pre + fuel) (length before) this sched
      = Live.after log
          (Live.forLoop M fuel (length before + length pre) this' sched')
      /\ selectedFiles this' = selectedFiles this
      /\ convertedImages this'
         = convertedImages this ++ named (length before) pre urls
      /\ isConverting this' = isConverting this
      /\ Live.selectionFree sched'
      /\ attempted log = pre
      /\ Live.oneByOne M pre log
      /\ (Live.quiet sched -> Live.quiet sched' /\ error this' = error this).
Proof.
  induction 1 as [|file u pre urls Hu _ IH];
    intros fuel this sched before rest Hfree Hsel.
  - exists [], this, sched. rewrite live_after_nil, Nat.add_0_r, app_nil_r.
    repeat split; try done. exists []. split; [done|constructor].
  - assert (selectedFiles this !! length before = Some file) as Hfile
      by (rewrite Hsel; apply list_lookup_middle; done).
    change (length (file :: pre) + fuel) with (S (length pre + fuel)).
    rewrite (live_forLoop_step _ _ _ _ _ Hfile). cbv zeta.
    rewrite (live_convert_resolves M _ _ _ _ _ Hu).
    destruct (live_convert_calm M file (length before + 1) this sched Hfree)
      as [(Hk1 & Hk2 & Hk3) Hfree'].
    pose proof (live_convert_quiet M file (length before + 1) this sched)
      as Hquiet.
    pose proof (live_convert_attempted M file (length before + 1) this sched)
      as Hatt.
    set (c := Live.convertWebpToJpeg M file (length before + 1) this sched)
      in *.
    set (r := {| name := fileName (length before + 1); url := u;
                 originalFile := file |}).
    destruct (IH fuel (push r c.1.1.2) c.1.2 (before ++ [file]) rest Hfree')
      as (log & this' & sched' & Hrun & Hs & Hc & Hi & Hf & Ha & Ho & Hq).
    { simpl. rewrite Hk1, Hsel. by rewrite <- app_assoc. }
    rewrite length_app in Hrun, Hc. simpl in Hrun, Hc.
    rewrite Nat.add_1_r in Hrun, Hc.
    exists (c.1.1.1 ++ log), this', sched'.
    rewrite Hrun, live_after_app. cbn [length].
    replace (length before + S (length pre))
      with (S (length before) + length pre) by lia.
    split; [done|]. split; [by rewrite Hs|].
    split; [rewrite Hc; simpl; rewrite Hk2, <- app_assoc; done|].
    split; [by rewrite Hi|]. split; [done|].
    split; [by rewrite attempted_app, Hatt, Ha|].
    split.
    + destruct Ho as (logs & -> & Hlogs). exists (c.1.1.1 :: logs).
      split; [done|]. constructor; [|done].
      by exists (length before + 1), this, sched.
    + intros Hqs. destruct (Hquiet Hqs) as [Hthis Hqs'].
      destruct (Hq Hqs') as [Hqs'' He]. split; [done|].
      rewrite He. simpl. by rewrite Hthis.
Qed.

End LiveLoop.

(** ** A run *)

Section LiveRun.
Context (M : Live.Machine).

Lemma live_convertImages_unfold sched st :
  selectedFiles st <> [] ->
  Live.convertImages M sched st =
    match Live.forLoop M
            (S (max (length (selectedFiles st)) (Live.longest sched)))
            0 (inFlight st []) sched with
    | Live.OutOfFuel => Live.Diverged
    | Live.Stalls log this => Live.Stalled this log
    | Live.Returns log this (Normal _) =>
        Live.Finished (set_isConverting false this) log
    | Live.Returns log this (Throw message) =>
        Live.Finished
          (set_isConverting false
             (set_error (Some ("Error converting images: " +:+ message))
                        this))
          (log ++ [ConsoleError "Conversion error:" message])
    end.
Proof.
  intros Hne. unfold Live.convertImages.
  destruct (length (selectedFiles st) =? 0)%nat eqn:E; [|reflexivity].
  by apply Nat.eqb_eq, length_zero_iff_nil in E.
Qed.

(** A run over a non-empty selection stops, whatever happens meanwhile:
    it ends, or it waits for ever on a conversion. *)
Lemma live_convertImages_total sched st :
  selectedFiles st <> [] ->
  exists st' log,
    Live.convertImages M sched st = Live.Finished st' log
    \/ Live.convertImages M sched st = Live.Stalled st' log.
Proof.
  intros Hne. rewrite live_convertImages_unfold by done.
  pose proof (live_forLoop_fuel M
                (max (length (selectedFiles st)) (Live.longest sched))
                0 (inFlight st []) sched) as Hfuel.
  destruct (Live.forLoop M _ 0 (inFlight st []) sched)
    as [log this [[]|m]|log this|]; eauto.
  exfalso. apply Hfuel; [simpl; lia | done].
Qed.

(** The state and the log a run stops with are those its loop stops
    with, the flag, the error and the report apart. *)
Lemma live_convertImages_loop sched st st' log :
  selectedFiles st <> [] ->
  Live.convertImages M sched st = Live.Finished st' log
  \/ Live.convertImages M sched st = Live.Stalled st' log ->
  exists log' this',
    Live.stopsWith
      (Live.forLoop M
         (S (max (length (selectedFiles st)) (Live.longest sched)))
         0 (inFlight st []) sched) log' this'
    /\ selectedFiles st' = selectedFiles this'
    /\ convertedImages st' = convertedImages this'
    /\ (log = log'
        \/ exists message,
             log = log' ++ [ConsoleError "Conversion error:" message]).
Proof.
  intros Hne. rewrite live_convertImages_unfold by done.
  destruct (Live.forLoop M _ 0 (inFlight st []) sched)
    as [log' this' [[]|m]|log' this'|].
  - intros [[= <- <-]|[=]]. exists log', this'.
    repeat split; [left; by eexists | by left].
  - intros [[= <- <-]|[=]]. exists log', this'.
    repeat split; [left; by eexists | right; by exists m].
  - intros [[=]|[= <- <-]]. exists log', this'.
    repeat split; [by right | by left].
  - by intros [[=]|[=]].
Qed.

(** A run during which no selection is made, up to the first file that
    does not convert. *)
Lemma live_run_prefix sched st pre urls rest :
  Live.selectionFree sched ->
  selectedFiles st = pre ++ rest ->
  selectedFiles st <> [] ->
  Forall2 (Live.resolves M) pre urls ->
  exists log this' sched' fuel,
    Live.forLoop M (S (max (length (selectedFiles st)) (Live.longest sched)))
                 0 (inFlight st []) sched
    = Live.after log (Live.forLoop M (S fuel) (length pre) this' sched')
    /\ selectedFiles this' = selectedFiles st
    /\ convertedImages this' = named 0 pre urls
    /\ isConverting this' = true
    /\ Live.selectionFree sched'
    /\ attempted log = pre
    /\ Live.oneByOne M pre log
    /\ (Live.quiet sched -> Live.quiet sched' /\ error this' = None).
Proof.
  intros Hfree Hsel Hne Hres.
  set (n := max (length (selectedFiles st)) (Live.longest sched)).
  assert (length pre <= n) as Hle
    by (unfold n; rewrite Hsel, length_app; lia).
  destruct (live_loop_resolves M pre urls Hres (S (n - length pre))
              (inFlight st []) sched [] rest Hfree Hsel)
    as (log & this' & sched' & Hrun & H).
  exists log, this', sched', (n - length pre).
  replace (S n) with (length pre + S (n - length pre)) by lia.
  split; [exact Hrun | exact H].
Qed.

Lemma live_run_resolves sched st urls :
  Live.selectionFree sched ->
  selectedFiles st <> [] ->
  Forall2 (Live.resolves M) (selectedFiles st) urls ->
  exists st' log,
    Live.convertImages M sched st = Live.Finished st' log
    /\ selectedFiles st' = selectedFiles st
    /\ convertedImages st' = named 0 (selectedFiles st) urls
    /\ isConverting st' = false
    /\ attempted log = selectedFiles st
    /\ Live.oneByOne M (selectedFiles st) log
    /\ (Live.quiet sched -> error st' = None).
Proof.
  intros Hfree Hne Hres.
  destruct (live_run_prefix sched st (selectedFiles st) urls [] Hfree)
    as (log & this' & sched' & fuel & Hrun & Hs & Hc & Hi & _ & Ha & Ho & Hq);
    [by rewrite app_nil_r | done | done |].
  rewrite live_convertImages_unfold, Hrun by done.
  rewrite live_forLoop_end
    by (rewrite Hs; apply lookup_ge_None; lia).
  simpl. rewrite app_nil_r. eexists _, log. split; [reflexivity|].
  simpl. repeat split; try done. intros Hqs. by apply Hq.
Qed.

Lemma live_run_rejects sched st pre urls f message post :
  Live.selectionFree sched ->
  selectedFiles st = pre ++ f :: post ->
  Forall2 (Live.resolves M) pre urls ->
  Live.rejects M f message ->
  exists st' log,
    Live.convertImages M sched st
    = Live.Finished st' (log ++ [ConsoleError "Conversion error:" message])
    /\ selectedFiles st' = selectedFiles st
    /\ convertedImages st' = named 0 pre urls
    /\ isConverting st' = false
    /\ error st' = Some ("Error converting images: " +:+ message)
    /\ attempted log = pre ++ [f]
    /\ Live.oneByOne M (pre ++ [f]) log.
Proof.
  intros Hfree Hsel Hres Hrej.
  assert (selectedFiles st <> []) as Hne
    by (rewrite Hsel; by destruct pre).
  destruct (live_run_prefix sched st pre urls (f :: post) Hfree Hsel Hne Hres)
    as (log & this' & sched' & fuel & Hrun & Hs & Hc & Hi & Hf & Ha & Ho & _).
  rewrite live_convertImages_unfold, Hrun by done.
  assert (selectedFiles this' !! length pre = Some f) as Hfile
    by (rewrite Hs, Hsel; by apply list_lookup_middle).
  rewrite (live_forLoop_step _ _ _ _ _ _ Hfile). cbv zeta.
  rewrite (live_convert_rejects M _ _ _ _ _ Hrej).
  destruct (live_convert_calm M f (length pre + 1) this' sched' Hf)
    as [(Hk1 & Hk2 & Hk3) _].
  pose proof (live_convert_attempted M f (length pre + 1) this' sched')
    as Hatt.
  set (c := Live.convertWebpToJpeg M f (length pre + 1) this' sched') in *.
  simpl. eexists _, (log ++ c.1.1.1). split; [reflexivity|]. simpl.
  split; [congruence|]. split; [congruence|]. split; [done|].
  split; [done|]. split; [by rewrite attempted_app, Ha, Hatt|].
  destruct Ho as (logs & -> & Hlogs). exists (logs ++ [c.1.1.1]).
  split; [by rewrite concat_app; simpl; rewrite app_nil_r|].
  apply Forall2_app; [done|]. constructor; [|constructor].
  by exists (length pre + 1), this', sched'.
Qed.

Lemma live_run_stalls sched st pre urls f post :
  Live.selectionFree sched ->
  selectedFiles st = pre ++ f :: post ->
  Forall2 (Live.resolves M) pre urls ->
  Live.stalls M f ->
  exists st' log,
    Live.convertImages M sched st = Live.Stalled st' log
    /\ selectedFiles st' = selectedFiles st
    /\ convertedImages st' = named 0 pre urls
    /\ isConverting st' = true
    /\ attempted log = pre ++ [f]
    /\ (Live.quiet sched -> error st' = None).
Proof.
  intros Hfree Hsel Hres Hstall.
  assert (selectedFiles st <> []) as Hne
    by (rewrite Hsel; by destruct pre).
  destruct (live_run_prefix sched st pre urls (f :: post) Hfree Hsel Hne Hres)
    as (log & this' & sched' & fuel & Hrun & Hs & Hc & Hi & Hf & Ha & Ho & Hq).
  rewrite live_convertImages_unfold, Hrun by done.
  assert (selectedFiles this' !! length pre = Some f) as Hfile
    by (rewrite Hs, Hsel; by apply list_lookup_middle).
  rewrite (live_forLoop_step _ _ _ _ _ _ Hfile). cbv zeta.
  rewrite (live_convert_stalls M _ _ _ _ Hstall).
  destruct (live_convert_calm M f (length pre + 1) this' sched' Hf)
    as [(Hk1 & Hk2 & Hk3) _].
  pose proof (live_convert_attempted M f (length pre + 1) this' sched')
    as Hatt.
  pose proof (live_convert_quiet M f (length pre + 1) this' sched') as Hquiet.
  set (c := Live.convertWebpToJpeg M f (length pre + 1) this' sched') in *.
  simpl. eexists _, (log ++ c.1.1.1). split; [reflexivity|].
  split; [congruence|]. split; [congruence|]. split; [congruence|].
  split; [by rewrite attempted_app, Ha, Hatt|].
  intros Hqs. destruct (Hq Hqs) as [Hqs' He].
  destruct (Hquiet Hqs') as [-> _]. done.
Qed.

(** A selection is made of files that convert, followed by nothing or by
    a file that does not. *)
Lemma live_first_failure (files : list File) :
  (exists urls, Forall2 (Live.resolves M) files urls)
  \/ (exists pre urls f post,
        files = pre ++ f :: post
        /\ Forall2 (Live.resolves M) pre urls
        /\ ((exists message, Live.rejects M f message) \/ Live.stalls M f)).
Proof.
  induction files as [|file files IH]; [left; exists []; constructor|].
  destruct (live_verdict M file) as [[u Hu]|Hbad].
  - destruct IH as [[urls H]|(pre & urls & f & post & -> & H & Hf)].
    + left. exists (u :: urls). by constructor.
    + right. exists (file :: pre), (u :: urls), f, post.
      split; [done|]. split; [by constructor | done].
  - right. exists [], [], file, files. split; [done|]. split; [constructor|done].
Qed.

Lemma live_resolves_inj file jpegUrl jpegUrl' :
  Live.resolves M file jpegUrl -> Live.resolves M file jpegUrl' ->
  jpegUrl = jpegUrl'.
Proof.
  intros [result img u Hr Hd Hc He] [result' img' u' Hr' Hd' Hc' He'].
  congruence.
Qed.

Lemma live_resolves_only file jpegUrl :
  Live.resolves M file jpegUrl ->
  (forall message, ~ Live.rejects M file message) /\ ~ Live.stalls M file.
Proof.
  intros [result img u Hr Hd Hc He]. split.
  - intros m [Hr' | result' Hr' Hd' | result' img' m' Hr' Hd' Hc' He'];
      congruence.
  - intros [result' img' Hr' Hd' Hc']. congruence.
Qed.

End LiveRun.

(** ** What the page shows during a run *)

Section LiveFrames.
Context (M : Live.Machine).

Lemma readFrames_quiet l : attempted l = [] -> Live.readFrames l = [].
Proof.
  induction l as [|e l IH]; [done|]. destruct e; simpl; try done; apply IH.
Qed.

Lemma readFrames_app_quiet l k :
  attempted l = [] -> Live.readFrames (l ++ k) = Live.readFrames k.
Proof.
  induction l as [|e l IH]; [done|]. destruct e; simpl; try done; apply IH.
Qed.

Lemma readFrames_report l label message :
  Live.readFrames (l ++ [ConsoleError label message]) = Live.readFrames l.
Proof.
  induction l as [|e l IH]; [done|].
  destruct e; simpl; try exact IH.
  destruct l as [|e' l]; [done|]. destruct e'; simpl; try exact IH.
  f_equal. exact IH.
Qed.

Lemma live_convert_readFrames file index this sched k :
  Live.readFrames
    ((Live.convertWebpToJpeg M file index this sched).1.1.1 ++ k)
  = (file, this) :: Live.readFrames k.
Proof.
  destruct (live_convert_shape M file index this sched) as (rest & -> & Hrest).
  simpl. by rewrite readFrames_app_quiet.
Qed.

(** The reads of the loop, with the state the page is rendered from as
    each starts: the first is started in the state the loop is entered
    with; every later one in a state whose last result is that of the file
    read just before, named by that file's turn. *)
Lemma live_forLoop_frames fuel i this sched log this' :
  Live.stopsWith (Live.forLoop M fuel i this sched) log this' ->
  (forall file view,
     Live.readFrames log !! 0 = Some (file, view) -> view = this)
  /\ (forall k file view,
        Live.readFrames log !! S k = Some (file, view) ->
        exists prev view0 r,
          Live.readFrames log !! k = Some (prev, view0)
          /\ last (convertedImages view) = Some r
          /\ name r = fileName (i + S k)
          /\ originalFile r = prev
          /\ Live.resolves M prev (url r))
  /\ Forall (fun p => isConverting p.2 = isConverting this)
            (Live.readFrames log).
Proof.
  revert i this sched log.
  induction fuel as [|fuel IH]; intros i this sched log Hstop.
  { by destruct Hstop as [[c [=]]|[=]]. }
  destruct (selectedFiles this !! i) as [file|] eqn:E; cycle 1.
  { rewrite live_forLoop_end in Hstop by done.
    destruct Hstop as [[c [= <- _ _]]|[=]]. by repeat split. }
  rewrite (live_forLoop_step _ _ _ _ _ _ E) in Hstop. cbv zeta in Hstop.
  pose proof (live_convert_readFrames file (i + 1) this sched) as Hfr.
  pose proof (live_convert_settled M file (i + 1) this sched) as Hset.
  pose proof (live_convert_preserves M
                (fun s => isConverting s = isConverting this)
                file (i + 1) this sched) as Hflag.
  set (c := Live.convertWebpToJpeg M file (i + 1) this sched) in *.
  assert (Live.readFrames c.1.1.1 = [(file, this)]) as Hfr0
    by (rewrite <- (app_nil_r c.1.1.1); apply Hfr).
  destruct c.2 as [[r|m]|].
  - destruct (Hset r eq_refl) as (u & Hu & ->).
    apply live_stopsWith_after in Hstop as (log' & -> & Hstop).
    destruct (IH _ _ _ _ Hstop) as (Hhead & Hnext & Hflags).
    rewrite Hfr. split; [by intros ? ? [= _ <-]|]. split.
    + intros [|k] file' view Hk; simpl in Hk.
      * apply Hhead in Hk as ->. eexists file, this, _.
        split; [done|]. simpl. rewrite last_snoc.
        split; [done|]. split; [f_equal; lia|done].
      * destruct (Hnext _ _ _ Hk) as (prev & view0 & r & H1 & H2 & H3 & H4).
        exists prev, view0, r. split; [done|]. split; [done|].
        split; [rewrite H3; f_equal; lia | done].
    + constructor; [done|]. eapply Forall_impl; [exact Hflags|].
      intros p Hp. rewrite Hp. simpl. apply Hflag; [|done].
      intros s e Hs. by destruct e.
  - destruct Hstop as [[c' [= <- _ _]]|[=]]. rewrite Hfr0.
    split; [by intros ? ? [= _ <-]|]. split; [by intros k ? ? [=]|].
    by repeat constructor.
  - destruct Hstop as [[c' [=]]|[= <- _]]. rewrite Hfr0.
    split; [by intros ? ? [= _ <-]|]. split; [by intros k ? ? [=]|].
    by repeat constructor.
Qed.

End LiveFrames.

(** ** What the results are, whatever happens during the run *)

Section LiveResults.
Context (M : Live.Machine).


(** Every result is the conversion of its own file. *)
Lemma live_forLoop_conversions fuel i this sched log this' :
  Forall (fun r => Live.resolves M (originalFile r) (url r))
         (convertedImages this) ->
  Live.stopsWith (Live.forLoop M fuel i this sched) log this' ->
  Forall (fun r => Live.resolves M (originalFile r) (url r))
         (convertedImages this').
Proof.
  intros Hall Hstop.
  set (P := fun (_ : nat) (s : BatchState) =>
              Forall (fun r => Live.resolves M (originalFile r) (url r))
                     (convertedImages s)).
  assert (exists i', P i' this') as (i' & H); [|exact H].
  apply (live_forLoop_preserves M P) with fuel i this sched log;
    [| |exact Hall|exact Hstop].
  - intros j s [files|m] H; unfold P; simpl; [constructor | done].
  - intros j s file u H Hu. unfold P. simpl. apply Forall_app.
    split; [done|]. by repeat constructor.
Qed.

End LiveResults.

(** ** The busy flag, whatever happens during the run *)

Section LiveFlag.
Context (M : Live.Machine).

Lemma live_interrupt_flag this e :
  isConverting (Live.interrupt this e) = isConverting this.
Proof. by destruct e. Qed.

Lemma live_handle_frames this now :
  Forall (fun view => isConverting view = isConverting this)
         (frames (Live.handle this now).1).
Proof.
  revert this. induction now as [|e now IH]; intros this; simpl;
    constructor; [apply live_interrupt_flag|].
  eapply Forall_impl; [apply IH|]. intros view ->. apply live_interrupt_flag.
Qed.

Lemma live_wait_frames this sched :
  Forall (fun view => isConverting view = isConverting this)
         (frames (Live.wait this sched).1.1).
Proof.
  destruct sched as [|now later]; simpl; constructor; try done.
  apply live_handle_frames.
Qed.

Lemma live_wait_flag this sched :
  isConverting (Live.wait this sched).1.2 = isConverting this.
Proof.
  apply (live_wait_preserves (fun s => isConverting s = isConverting this));
    [|done].
  intros s e <-. apply live_interrupt_flag.
Qed.

Lemma live_convert_frames file index this sched :
  Forall (fun view => isConverting view = isConverting this)
         (frames (Live.convertWebpToJpeg M file index this sched).1.1.1).
Proof.
  unfold Live.convertWebpToJpeg. cbv zeta.
  pose proof (live_wait_frames this sched) as H1.
  pose proof (live_wait_frames (Live.wait this sched).1.2
                               (Live.wait this sched).2) as H2.
  rewrite live_wait_flag in H2.
  destruct (readAsDataURL (Live.api M) file) as [result|]; simpl; [|done].
  destruct (decode (Live.api M) result) as [img|]; simpl;
    [destruct (Live.renders M img); simpl|];
    rewrite ?frames_app; simpl; rewrite ?frames_app; simpl;
    rewrite ?app_nil_r; by apply Forall_app.
Qed.

(** The flag is as the loop found it in every state the page is rendered
    from and when the loop stops; a loop that waits for ever waits on the
    last file it read, one whose canvas cannot be built. *)
Lemma live_forLoop_flag fuel i this sched log this' :
  Live.stopsWith (Live.forLoop M fuel i this sched) log this' ->
  Forall (fun view => isConverting view = isConverting this) (frames log)
  /\ isConverting this' = isConverting this
  /\ (Live.forLoop M fuel i this sched = Live.Stalls log this' ->
      exists f, last (attempted log) = Some f /\ Live.stalls M f).
Proof.
  revert i this sched log.
  induction fuel as [|fuel IH]; intros i this sched log Hstop.
  { by destruct Hstop as [[c [=]]|[=]]. }
  destruct (selectedFiles this !! i) as [file|] eqn:E; cycle 1.
  { rewrite live_forLoop_end in Hstop |- * by done.
    destruct Hstop as [[c [= <- <- _]]|[=]].
    split; [constructor|]. split; [done|]. by intros [=]. }
  rewrite (live_forLoop_step _ _ _ _ _ _ E) in Hstop |- *.
  cbv zeta in Hstop |- *.
  pose proof (live_convert_frames file (i + 1) this sched) as Hfr.
  pose proof (live_convert_attempted M file (i + 1) this sched) as Hatt.
  pose proof (live_convert_preserves M
                (fun s => isConverting s = isConverting this)
                file (i + 1) this sched) as Hflag.
  pose proof (live_convert_resolves M file (i + 1) this sched) as Hres.
  pose proof (live_convert_rejects M file (i + 1) this sched) as Hrej.
  set (c := Live.convertWebpToJpeg M file (i + 1) this sched) in *.
  assert (isConverting c.1.1.2 = isConverting this) as Hflag'.
  { apply Hflag; [|done]. intros s e <-. apply live_interrupt_flag. }
  destruct c.2 as [[r|m]|] eqn:Hc.
  - apply live_stopsWith_after in Hstop as (log' & -> & Hstop).
    destruct (IH _ _ _ _ Hstop) as (Hframes & Hend & Hstall).
    rewrite frames_app. split; [|split].
    + apply Forall_app. split; [done|].
      eapply Forall_impl; [exact Hframes|]. intros view ->. exact Hflag'.
    + by rewrite Hend.
    + intros Hrun.
      destruct (Live.forLoop M fuel (S i) (push r c.1.1.2) c.1.2)
        as [l t c'|l t|] eqn:Hrec; simpl in Hrun; try done.
      injection Hrun as Hl <-. apply app_inv_head in Hl as <-.
      destruct (Hstall eq_refl) as (f & Hlast & Hf). exists f.
      split; [|done]. rewrite attempted_app, last_app. by rewrite Hlast.
  - destruct Hstop as [[c' [= <- <- _]]|[=]].
    split; [done|]. split; [done|]. by intros [=].
  - destruct Hstop as [[c' [=]]|[= <- <-]].
    split; [done|]. split; [done|].
    intros _. exists file. rewrite Hatt. split; [done|].
    destruct (live_verdict M file) as [[u H]|[[m H]|H]]; [| |done].
    + by pose proof (Hres _ H).
    + by pose proof (Hrej _ H).
Qed.

End LiveFlag.

(** ** The run that nothing disturbs *)

(** When no handler runs during the run and every canvas can be built,
    the run with the page alive is the run of [convertImages] above: same
    state, same log. *)

Section Undisturbed.
Context (M : Live.Machine).
Hypothesis renders_all : forall img, Live.renders M img = true.

Lemma live_convert_undisturbed file index this sched :
  Live.quiet sched ->
  exists sched',
    Live.quiet sched'
    /\ Live.convertWebpToJpeg M file index this sched
       = ((convertWebpToJpeg (Live.api M) this file index).1, this, sched',
          Live.Settled (convertWebpToJpeg (Live.api M) this file index).2).
Proof.
  intros Hq. unfold Live.convertWebpToJpeg, convertWebpToJpeg. cbv zeta.
  destruct (live_wait_quiet this sched Hq) as [-> Hq1]. simpl.
  destruct (live_wait_quiet this _ Hq1) as [-> Hq2]. simpl.
  destruct (readAsDataURL (Live.api M) file) as [result|]; simpl;
    [|eexists; (split; [|reflexivity]); done].
  destruct (decode (Live.api M) result) as [img|]; simpl;
    [|eexists; (split; [|reflexivity]); done].
  rewrite renders_all. unfold call.
  destruct (toDataURL (Live.api M) (drawImage img) "image/jpeg" jpegQuality);
    simpl; eexists; (split; [|reflexivity]); done.
Qed.

Lemma live_forLoop_undisturbed fuel i this sched :
  Live.quiet sched ->
  Live.forLoop M fuel i this sched
  = match forLoop (Live.api M) fuel i this with
    | Some (log, this', c) => Live.Returns log this' c
    | None => Live.OutOfFuel
    end.
Proof.
  revert i this sched. induction fuel as [|fuel IH]; intros i this sched Hq;
    [done|].
  simpl. destruct (selectedFiles this !! i) as [file|]; [|done].
  destruct (live_convert_undisturbed file (i + 1) this sched Hq)
    as (sched' & Hq' & ->).
  destruct (convertWebpToJpeg (Live.api M) this file (i + 1)) as [log [r|m]];
    simpl; [|done].
  rewrite IH by done.
  by destruct (forLoop (Live.api M) fuel (S i) (push r this))
    as [[[log' this'] c]|].
Qed.

Lemma live_undisturbed sched st :
  Live.quiet sched ->
  Live.convertImages M sched st
  = match convertImages (Live.api M) st with
    | Some (st', log) => Live.Finished st' log
    | None => Live.Diverged
    end.
Proof.
  intros Hq. unfold Live.convertImages, convertImages.
  destruct (length (selectedFiles st) =? 0)%nat; [done|].
  rewrite live_quiet_longest, Nat.max_0_r by done.
  rewrite live_forLoop_undisturbed by done.
  by destruct (forLoop (Live.api M) _ 0 _) as [[[log this'] [[]|m]]|].
Qed.

End Undisturbed.

(** ** A run during which no selection is made *)

Section LiveSplit.
Context (M : Live.Machine).


Lemma take_first_failure {A} (pre : list A) f post :
  take (S (length pre)) (pre ++ f :: post) = pre ++ [f].
Proof. induction pre as [|x pre IH]; simpl; [done|]. by rewrite IH. Qed.

(** The run stops with the results of the files before the first one
    that does not convert, and has started a read for each of these files
    and for that one. *)
Lemma live_run_split sched st :
  Live.selectionFree sched ->
  selectedFiles st <> [] ->
  exists st' log pre urls rest,
    selectedFiles st = pre ++ rest
    /\ Forall2 (Live.resolves M) pre urls
    /\ selectedFiles st' = selectedFiles st
    /\ convertedImages st' = named 0 pre urls
    /\ attempted log = take (S (length pre)) (selectedFiles st)
    /\ ((rest = []
         /\ Live.convertImages M sched st = Live.Finished st' log
         /\ isConverting st' = false
         /\ (Live.quiet sched -> error st' = None))
        \/ (exists f message post,
              rest = f :: post
              /\ Live.rejects M f message
              /\ Live.convertImages M sched st = Live.Finished st' log
              /\ isConverting st' = false
              /\ error st' = Some ("Error converting images: " +:+ message))
        \/ (exists f post,
              rest = f :: post
              /\ Live.stalls M f
              /\ Live.convertImages M sched st = Live.Stalled st' log
              /\ isConverting st' = true
              /\ (Live.quiet sched -> error st' = None))).
Proof.
  intros Hfree Hne.
  destruct (live_first_failure M (selectedFiles st))
    as [[urls Hres]|(pre & urls & f & post & Hsel & Hres & [[m Hf]|Hf])].
  - destruct (live_run_resolves M sched st urls Hfree Hne Hres)
      as (st' & log & Hrun & Hs & Hc & Hi & Ha & _ & Hq).
    exists st', log, (selectedFiles st), urls, [].
    rewrite app_nil_r, Ha, take_ge by lia.
    repeat split; try done. left. by repeat split.
  - destruct (live_run_rejects M sched st pre urls f m post Hfree Hsel Hres Hf)
      as (st' & log & Hrun & Hs & Hc & Hi & He & Ha & _).
    exists st', (log ++ [ConsoleError "Conversion error:" m]), pre, urls,
      (f :: post).
    rewrite attempted_app, Ha, app_nil_r, Hsel, take_first_failure.
    repeat split; try done; [congruence|].
    right; left. by exists f, m, post.
  - destruct (live_run_stalls M sched st pre urls f post Hfree Hsel Hres Hf)
      as (st' & log & Hrun & Hs & Hc & Hi & Ha & Hq).
    exists st', log, pre, urls, (f :: post).
    rewrite Ha, Hsel, take_first_failure.
    repeat split; try done; [congruence|].
    right; right. by exists f, post.
Qed.

End LiveSplit.



(** C9. During a run the results are surfaced as they complete, whatever
    else happens on the page.  When the read of any file but the first of
    the run starts, the run is still in flight, the page is rendered with
    the results section shown, and the last result listed is that of the
    file read just before.  The results section is shown exactly when
    [convertedImages] is not empty, in flight or not.  So, when no new
    selection is made, the first file converts and a second one follows,
    the page shows the first result while the second file is being read. *)
Theorem results_surface_during_run
    (M : Live.Machine) (sched : Live.Schedule) (st : BatchState) :
  selectedFiles st <> [] ->
  exists st' log,
    (Live.convertImages M sched st = Live.Finished st' log
     \/ Live.convertImages M sched st = Live.Stalled st' log)
    /\ (forall k file view,
          Live.readFrames log !! S k = Some (file, view) ->
          isConverting view = true
          /\ showsResults view = true
          /\ exists prev view0 r,
               Live.readFrames log !! k = Some (prev, view0)
               /\ last (convertedImages view) = Some r
               /\ originalFile r = prev
               /\ Live.resolves M prev (url r))
    /\ (forall view, showsResults view = true <-> convertedImages view <> [])
    /\ (forall f g rest jpegUrl,
          Live.selectionFree sched ->
          selectedFiles st = f :: g :: rest ->
          Live.resolves M f jpegUrl ->
          exists view,
            Live.readFrames log !! 1 = Some (g, view)
            /\ convertedImages view
               = [{| name := "img-1.jpg"; url := jpegUrl;
                     originalFile := f |}]
            /\ isConverting view = true
            /\ showsResults view = true).
Proof.
  intros Hne.
  destruct (live_convertImages_total M sched st Hne) as (st' & log & Hrun).
  exists st', log. split; [done|].
  destruct (live_convertImages_loop M sched st st' log Hne Hrun)
    as (log' & this' & Hstop & _ & _ & Hlog).
  assert (Live.readFrames log = Live.readFrames log') as ->
    by (destruct Hlog as [->|[m ->]]; [done | apply readFrames_report]).
  assert (forall view, showsResults view = true <-> convertedImages view <> [])
    as Hshow.
  { intros view. unfold showsResults. rewrite Nat.ltb_lt.
    destruct (convertedImages view); simpl; split; (done || lia). }
  destruct (live_forLoop_frames M _ _ _ _ _ _ Hstop)
    as (Hhead & Hnext & Hflags).
  split; [|split; [exact Hshow|]].
  - intros k file view Hk.
    destruct (Hnext k file view Hk) as (prev & view0 & r & H1 & H2 & _ & H3 & H4).
    split.
    { rewrite Forall_forall in Hflags.
      apply (Hflags (file, view)). by eapply list_elem_of_lookup_2. }
    split.
    { apply Hshow. intros Hnil. by rewrite Hnil in H2. }
    by exists prev, view0, r.
  - intros f g rest u Hfree Hsel Hu.
    destruct (live_run_prefix M sched st [f] [u] (g :: rest) Hfree Hsel Hne)
      as (log1 & this1 & sched1 & fuel & Hloop & Hs & Hc & Hi & _ & _ & Ho & _);
      [by repeat constructor|].
    rewrite Hloop in Hstop.
    apply live_stopsWith_after in Hstop as (log2 & -> & Hstop).
    destruct Ho as (logs & -> & Hlogs).
    apply Forall2_cons_inv_l in Hlogs
      as (l1 & logs' & (index & this0 & sched0 & ->) & ->%Forall2_nil_inv_l & ->).
    simpl. rewrite app_nil_r, live_convert_readFrames. simpl.
    assert (selectedFiles this1 !! 1 = Some g) as Hg by (by rewrite Hs, Hsel).
    rewrite (live_forLoop_step M _ _ _ _ _ Hg) in Hstop. cbv zeta in Hstop.
    pose proof (live_convert_readFrames M g (1 + 1) this1 sched1) as Hfr.
    set (c := Live.convertWebpToJpeg M g (1 + 1) this1 sched1) in *.
    assert (exists tail, Live.readFrames log2 = (g, this1) :: tail)
      as (tail & ->).
    { destruct c.2 as [[r|m]|].
      - apply live_stopsWith_after in Hstop as (log3 & -> & _).
        rewrite Hfr. by eexists.
      - destruct Hstop as [[c' [= <- _ _]]|[=]].
        rewrite <- (app_nil_r c.1.1.1), Hfr. by eexists.
      - destruct Hstop as [[c' [=]]|[= <- _]].
        rewrite <- (app_nil_r c.1.1.1), Hfr. by eexists. }
    exists this1. split; [done|]. split; [exact Hc|]. split; [done|].
    apply Hshow. by rewrite Hc.
Qed.

(** C8. The release is not a cleanup that holds whatever the trigger
    step does.  When the archive is generated and one of the DOM calls
    that follow [createObjectURL] throws ([appendChild], [click] or
    [removeChild]), the export returns through its catch handler: it has
    created an object URL, it has revoked none, the URL is still live, and
    only [error] has been set.  [revokeObjectURL] is the last statement of
    the [try] block; there is no [finally]. *)
Theorem export_leaks_when_trigger_throws
    (Z : Page) (st : BatchState) (blob : Archive) (message : string) :
  convertedImages st <> [] ->
  generateAsync Z (foldl addImage [] (convertedImages st)) = Normal blob ->
  appendChild Z (zipLink Z blob) = Throw message
  \/ (appendChild Z (zipLink Z blob) = Normal tt
      /\ click Z (zipLink Z blob) = Throw message)
  \/ (appendChild Z (zipLink Z blob) = Normal tt
      /\ click Z (zipLink Z blob) = Normal tt
      /\ removeChild Z (zipLink Z blob) = Throw message) ->
  CreateObjectURL blob ∈ (downloadAllImages Z st).2
  /\ (forall u, RevokeObjectURL u ∉ (downloadAllImages Z st).2)
  /\ live Z (downloadAllImages Z st).2 = [createObjectURL Z blob]
  /\ (downloadAllImages Z st).1
     = set_error (Some ("Error creating zip file: " +:+ message)) st.
Proof.
  intros Hne Hzip Hdom. unfold downloadAllImages.
  rewrite exportBody_cases, Hzip. cbv zeta.
  destruct (convertedImages st) as [|r rs]; [done|].
  change (length (r :: rs) =? 0)%nat with false. cbv iota.
  destruct Hdom as [->|[(-> & ->)|(-> & -> & ->)]]; simpl;
    (split; [by repeat constructor|]); (split; [|done]);
    intros u Hin;
    repeat (apply elem_of_cons in Hin as [Hin|Hin]; [done|]);
    by apply elem_of_nil in Hin.
Qed.

(** X1. Whatever happens during a run, every result it stops with is the
    conversion of its own file: the file was read, the data read decoded
    to an image, the canvas could be built, and the result's [url] is what
    [toDataURL] returned, asked for "image/jpeg" at quality 0.9, for a
    canvas of exactly that image's width and height holding that image.
    When no new selection is made during the run, the file stands at the
    result's position in the selection, and the result of the first file
    is there whenever that file converts. *)
Theorem results_are_conversions
    (M : Live.Machine) (sched : Live.Schedule) (st : BatchState) :
  selectedFiles st <> [] ->
  exists st' log,
    (Live.convertImages M sched st = Live.Finished st' log
     \/ Live.convertImages M sched st = Live.Stalled st' log)
    /\ (forall r,
          r ∈ convertedImages st' ->
          exists result img,
            readAsDataURL (Live.api M) (originalFile r) = Some result
            /\ decode (Live.api M) result = Some img
            /\ Live.renders M img = true
            /\ toDataURL (Live.api M)
                 {| canvas_width := width img; canvas_height := height img;
                    drawn := Some img |}
                 "image/jpeg" (QArith_base.Qmake 9 10)
               = Normal (url r))
    /\ (Live.selectionFree sched ->
        (forall i r,
           convertedImages st' !! i = Some r ->
           selectedFiles st !! i = Some (originalFile r))
        /\ (forall f jpegUrl,
              head (selectedFiles st) = Some f ->
              Live.resolves M f jpegUrl ->
              exists r,
                head (convertedImages st') = Some r
                /\ originalFile r = f /\ url r = jpegUrl)).
Proof.
  intros Hne.
  destruct (live_convertImages_total M sched st Hne) as (st' & log & Hrun).
  exists st', log. split; [done|]. split.
  - destruct (live_convertImages_loop M sched st st' log Hne Hrun)
      as (log' & this' & Hstop & _ & Hc & _).
    intros r Hr. rewrite Hc in Hr.
    assert (Forall (fun r => Live.resolves M (originalFile r) (url r))
                   (convertedImages this')) as Hall
      by (eapply live_forLoop_conversions; [|exact Hstop]; constructor).
    rewrite Forall_forall in Hall.
    destruct (Hall r Hr) as [result img u H1 H2 H3 H4].
    by exists result, img.
  - intros Hfree.
    destruct (live_run_split M sched st Hfree Hne)
      as (st'' & log'' & pre & urls & rest & Hsel & Hres & _ & Hc & _ & Hcase).
    assert (st'' = st') as ->.
    { destruct Hcase as [(_ & H & _)|[(f & m & post & _ & _ & H & _)
                                     |(f & post & _ & _ & H & _)]];
        rewrite H in Hrun; by destruct Hrun as [[=]|[=]]. }
    split.
    + intros i r Hr. rewrite Hc in Hr. apply named_lookup in Hr as [_ Hr].
      rewrite Hsel. by apply lookup_app_l_Some.
    + intros f u Hf Hu. rewrite Hsel in Hf. rewrite Hc.
      destruct Hres as [|f' u' pre urls Hu' Hres]; simpl in *.
      * destruct (live_resolves_only M f u Hu) as [Hnr Hns].
        destruct Hcase as [(-> & _)|[(g & m & post & -> & Hg & _)
                                    |(g & post & -> & Hg & _)]];
          simpl in Hf; [done| |]; injection Hf as ->;
          [by destruct (Hnr m) | done].
      * injection Hf as ->. eexists. split; [done|]. simpl.
        split; [done|]. by eapply live_resolves_inj.
Qed.

(** X2. A run during which no other handler runs ends or waits for ever.
    When it ends, it ends without an error exactly when it has converted
    every file of the selection, and with an error exactly when it has
    converted fewer.  It waits for ever when a canvas cannot be built:
    then it has converted fewer, no error is set, and [isConverting] stays
    set. *)
Theorem run_succeeds_iff_all_converted
    (M : Live.Machine) (sched : Live.Schedule) (st : BatchState) :
  selectedFiles st <> [] ->
  Live.quiet sched ->
  (exists st' log,
     Live.convertImages M sched st = Live.Finished st' log
     /\ isConverting st' = false
     /\ (error st' = None
         <-> length (convertedImages st') = length (selectedFiles st))
     /\ (error st' <> None
         <-> length (convertedImages st') < length (selectedFiles st)))
  \/ (exists st' log f,
        Live.convertImages M sched st = Live.Stalled st' log
        /\ selectedFiles st !! length (convertedImages st') = Some f
        /\ Live.stalls M f
        /\ isConverting st' = true
        /\ error st' = None).
Proof.
  intros Hne Hq.
  destruct (live_run_split M sched st (live_quiet_selectionFree _ Hq) Hne)
    as (st' & log & pre & urls & rest & Hsel & Hres & _ & Hc & _ & Hcase).
  assert (length (convertedImages st') = length pre) as Hlen
    by (rewrite Hc; apply length_named; by eapply Forall2_length).
  destruct Hcase as [(-> & Hrun & Hi & He)
                    |[(f & m & post & -> & _ & Hrun & Hi & He)
                     |(f & post & -> & Hf & Hrun & Hi & He)]].
  - left. exists st', log. rewrite Hlen, Hsel, app_nil_r, (He Hq).
    split; [done|]. split; [done|]. split; [done|]. split; [done|lia].
  - left. exists st', log. rewrite Hlen, Hsel, length_app, He. simpl.
    split; [done|]. split; [done|].
    split; (split; [(done || lia) | (done || lia)]).
  - right. exists st', log, f. rewrite Hlen, Hsel.
    repeat split; try done; [by apply list_lookup_middle | by apply He].
Qed.

(** X3. A run during which no new selection is made reads the files in
    the order of the selection, each at most once and none skipped: the
    files it has started a read for when it stops are an initial piece of
    the selection, those it has a result for and, unless it has one for
    every file, the next one. *)
Theorem run_reads_in_order
    (M : Live.Machine) (sched : Live.Schedule) (st : BatchState) :
  selectedFiles st <> [] ->
  Live.selectionFree sched ->
  exists st' log,
    (Live.convertImages M sched st = Live.Finished st' log
     \/ Live.convertImages M sched st = Live.Stalled st' log)
    /\ attempted log `prefix_of` selectedFiles st
    /\ attempted log
       = take (S (length (convertedImages st'))) (selectedFiles st)
    /\ originalFile <$> convertedImages st'
       = take (length (convertedImages st')) (selectedFiles st)
    /\ length (convertedImages st') <= length (selectedFiles st).
Proof.
  intros Hne Hfree.
  destruct (live_run_split M sched st Hfree Hne)
    as (st' & log & pre & urls & rest & Hsel & Hres & _ & Hc & Ha & Hcase).
  pose proof (Forall2_length _ _ _ Hres) as Hlen'.
  assert (length (convertedImages st') = length pre) as Hlen
    by (rewrite Hc; by apply length_named).
  exists st', log. split.
  { destruct Hcase as [(_ & H & _)|[(f & m & post & _ & _ & H & _)
                                   |(f & post & _ & _ & H & _)]];
      [by left | by left | by right]. }
  rewrite Hlen, Ha. split; [apply prefix_take|]. split; [done|].
  split; [|rewrite Hsel, length_app; lia].
  rewrite Hc, Hsel, take_app_length.
  clear -Hlen'. revert urls Hlen'. generalize 0.
  induction pre as [|f pre IH]; intros i [|u urls] H; simpl in *; try done.
  f_equal. apply IH. lia.
Qed.

(** X11. When no new selection is made during the run, every file of the
    selection converts and the export that follows goes through, the
    archive has one entry per selected file, in the order of the
    selection: the entry for the file at position i is named
    "img-<i>.jpg", the name its own download link offers, and holds what
    JSZip decodes from the payload of the data URL that file was encoded
    to. *)
Theorem run_then_export
    (M : Live.Machine) (sched : Live.Schedule) (Z : Page) (st : BatchState)
    (urls : list string) (raw : string -> string) :
  selectedFiles st <> [] ->
  Live.selectionFree sched ->
  Forall2 (Live.resolves M) (selectedFiles st) urls ->
  (forall u, u ∈ urls -> base64 Z (JS.split "," u !! 1%nat) = Normal (raw u)) ->
  (forall link, appendChild Z link = Normal tt
                /\ click Z link = Normal tt
                /\ removeChild Z link = Normal tt) ->
  exists st' log blob,
    Live.convertImages M sched st = Live.Finished st' log
    /\ downloadAllImages Z st' =
         (st', [GenerateAsync; Idle st'; CreateObjectURL blob;
                AppendChild (zipLink Z blob); Click (zipLink Z blob);
                RemoveChild (zipLink Z blob);
                RevokeObjectURL (createObjectURL Z blob)])
    /\ blob.*1 = fileName <$> seq 1 (length (selectedFiles st))
    /\ blob.*2 = raw <$> urls
    /\ download <$> imageLinks st' = blob.*1.
Proof.
  intros Hne Hfree Hres Hraw Hdom.
  pose proof (Forall2_length _ _ _ Hres) as Hlen.
  destruct (live_run_resolves M sched st urls Hfree Hne Hres)
    as (st' & log & Hrun & _ & Hc & _).
  assert (convertedImages st' <> []) as Hne'.
  { rewrite Hc. intros Hnil. apply (f_equal length) in Hnil.
    rewrite length_named in Hnil by done.
    by destruct (selectedFiles st). }
  assert (name <$> convertedImages st'
          = fileName <$> seq 1 (length (selectedFiles st))) as Hnames
    by (rewrite Hc; by rewrite named_names).
  exists st', log, ((fun image => (name image, raw (url image)))
                      <$> convertedImages st').
  split; [done|]. split; [|split; [|split]].
  - apply (downloadAllImages_ok Z (fun image => raw (url image)) st' Hne').
    + rewrite Hnames. apply (@NoDup_fmap_2 _ _ fileName fileName_inj), NoDup_seq.
    + intros image Hin. apply Hraw. rewrite <- (named_urls 0 _ _ Hlen), <- Hc.
      by apply (list_elem_of_fmap_2 url).
    + done.
  - by rewrite <- list_fmap_compose.
  - transitivity (raw <$> (url <$> convertedImages st')).
    + by rewrite <- !list_fmap_compose.
    + by rewrite Hc, named_urls.
  - unfold imageLinks, showsResults.
    destruct (convertedImages st') as [|r rs] eqn:E; [done|].
    change (0 <? length (r :: rs))%nat with true. cbv iota.
    by rewrite <- !list_fmap_compose.
Qed.

(** X13. Whatever happens on the page during a run over a non-empty
    selection, the run stops.  Either it ends, and [isConverting] is
    false again; or it waits for ever, on the last file it has read, for
    which the canvas cannot be built, and [isConverting] stays true.
    Every state the page is rendered from during the run, of which there
    is at least one, has [isConverting] true and the convert button
    disabled. *)
Theorem run_flag_with_page_alive
    (M : Live.Machine) (sched : Live.Schedule) (st : BatchState) :
  selectedFiles st <> [] ->
  exists st' log,
    ((Live.convertImages M sched st = Live.Finished st' log
      /\ isConverting st' = false)
     \/ (Live.convertImages M sched st = Live.Stalled st' log
         /\ isConverting st' = true
         /\ exists f, last (attempted log) = Some f /\ Live.stalls M f))
    /\ frames log <> []
    /\ Forall (fun view => isConverting view = true
                           /\ convertDisabled view = true) (frames log).
Proof.
  intros Hne.
  destruct (live_convertImages_total M sched st Hne) as (st' & log & Hrun).
  exists st', log.
  rewrite live_convertImages_unfold in Hrun |- * by done.
  set (fuel := max (length (selectedFiles st)) (Live.longest sched)) in *.
  assert (exists log' this',
            Live.stopsWith (Live.forLoop M (S fuel) 0 (inFlight st []) sched)
                           log' this'
            /\ frames log = frames log') as (log' & this' & Hstop & Hlog).
  { destruct (Live.forLoop M (S fuel) 0 (inFlight st []) sched)
      as [l t [[]|m]|l t|]; destruct Hrun as [Hrun|Hrun];
      try discriminate; injection Hrun as <- <-.
    - exists l, t. split; [left; by eexists | done].
    - exists l, t. split; [left; by eexists |].
      by rewrite frames_app, app_nil_r.
    - exists l, t. split; [by right | done]. }
  destruct (live_forLoop_flag M _ _ _ _ _ _ Hstop) as (Hframes & Hend & Hstall).
  split; [|split].
  - destruct (Live.forLoop M (S fuel) 0 (inFlight st []) sched)
      as [l t [[]|m]|l t|] eqn:Hloop.
    + destruct Hrun as [[= <- <-]|[=]]. left. by split.
    + destruct Hrun as [[= <- <-]|[=]]. left. by split.
    + destruct Hrun as [[=]|[= <- <-]]. right. split; [done|].
      destruct Hstop as [[c' [=]]|[= <- <-]]. split; [exact Hend|].
      by apply Hstall.
    + by destruct Hstop as [[c' [=]]|[=]].
  - rewrite Hlog. destruct (selectedFiles st) as [|file files] eqn:Hsel;
      [done|].
    assert (selectedFiles (inFlight st []) !! 0 = Some file) as Hfile
      by (simpl; by rewrite Hsel).
    rewrite (live_forLoop_step _ _ _ _ _ _ Hfile) in Hstop.
    cbv zeta in Hstop.
    destruct (live_convert_shape M file (0 + 1) (inFlight st []) sched)
      as (rest & Hshape & _).
    set (c := Live.convertWebpToJpeg M file (0 + 1) (inFlight st []) sched)
      in *.
    destruct c.2 as [[r|m]|].
    + apply live_stopsWith_after in Hstop as (l & -> & _).
      by rewrite Hshape.
    + destruct Hstop as [[c' [= <- _ _]]|[=]]. by rewrite Hshape.
    + destruct Hstop as [[c' [=]]|[= <- _]]. by rewrite Hshape.
  - rewrite Hlog. eapply Forall_impl; [exact Hframes|].
    intros view Hview. simpl in Hview. split; [done|].
    unfold convertDisabled. rewrite Hview. apply orb_true_r.
Qed.

(** ** The sample inputs, with the page alive *)

Section LiveSamples.
Import Examples MoreExamples.

Lemma machine_resolves file :
  decode browser ("data:image/webp;base64," +:+ File.bytes file) <> None ->
  Live.resolves machine file "data:image/jpeg;base64,/9j/4AAQ".
Proof.
  intros Hd.
  destruct (decode browser ("data:image/webp;base64," +:+ File.bytes file))
    as [img|] eqn:E; [|done].
  by eapply Live.resolves_intro.
Qed.



End LiveSamples.

(** A run that meets a canvas it cannot build never ends: over
    [a.webp; d.webp; c.WEBP], the canvas for [d.webp] failing, the run has
    read two files and has one result, no error is set, and the convert
    button stays disabled. *)
Example render_failure_stalls_run :
  exists st' log,
    Live.convertImages MoreExamples.machine_without_canvas []
      (Examples.selected [Examples.a_webp; Examples.d_webp; Examples.c_WEBP])
    = Live.Stalled st' log
    /\ attempted log = [Examples.a_webp; Examples.d_webp]
    /\ name <$> convertedImages st' = ["img-1.jpg"]
    /\ isConverting st' = true
    /\ error st' = None
    /\ convertDisabled st' = true.
Proof. eexists _, _. split; [vm_compute; reflexivity|]. by vm_compute. Qed.





(** C8, on a page where detaching the link throws. *)
Lemma export_leaks_when_trigger_throws_witness :
  live MoreExamples.page_remove_throws
    (downloadAllImages MoreExamples.page_remove_throws
       Examples.after_full_run).2
  = ["blob:converted"]
  /\ (forall u,
        RevokeObjectURL u
        ∉ (downloadAllImages MoreExamples.page_remove_throws
             Examples.after_full_run).2)
  /\ error (downloadAllImages MoreExamples.page_remove_throws
              Examples.after_full_run).1
     = Some ("Error creating zip file: "
             +:+ "The node to be removed is not a child of this node.").
Proof.
  destruct (export_leaks_when_trigger_throws MoreExamples.page_remove_throws
              Examples.after_full_run
              [("img-1.jpg", "bytes of /9j/4AAQ");
               ("img-2.jpg", "bytes of /9j/4AAQ")]
              "The node to be removed is not a child of this node.")
    as (_ & Hnone & Hlive & Hst).
  - discriminate.
  - reflexivity.
  - right; right. repeat split; reflexivity.
  - split; [exact Hlive|]. split; [exact Hnone|]. by rewrite Hst.
Defined.

(** C9, on a run over two files, nothing else happening. *)
Lemma results_surface_during_run_witness :
  exists st' log view,
    (Live.convertImages MoreExamples.machine []
       (Examples.selected [Examples.a_webp; Examples.d_webp])
     = Live.Finished st' log
     \/ Live.convertImages MoreExamples.machine []
          (Examples.selected [Examples.a_webp; Examples.d_webp])
        = Live.Stalled st' log)
    /\ Live.readFrames log !! 1 = Some (Examples.d_webp, view)
    /\ name <$> convertedImages view = ["img-1.jpg"]
    /\ isConverting view = true
    /\ showsResults view = true.
Proof.
  destruct (results_surface_during_run MoreExamples.machine []
              (Examples.selected [Examples.a_webp; Examples.d_webp]))
    as (st' & log & Hrun & _ & _ & Hsecond); [vm_compute; discriminate|].
  destruct (Hsecond Examples.a_webp Examples.d_webp []
                    "data:image/jpeg;base64,/9j/4AAQ")
    as (view & Hview & Hres & Hflag & Hshown).
  - constructor.
  - reflexivity.
  - by apply machine_resolves.
  - exists st', log, view. rewrite Hres. by repeat split.
Defined.

(** X1, on the run over [a.webp; d.webp], an export failing while the
    second file is read. *)
Lemma results_are_conversions_witness :
  exists st' log r,
    (Live.convertImages MoreExamples.machine
       [[]; []; [Live.ExportFailure "out of memory"]]
       MoreExamples.two_selected
     = Live.Finished st' log
     \/ Live.convertImages MoreExamples.machine
          [[]; []; [Live.ExportFailure "out of memory"]]
          MoreExamples.two_selected
        = Live.Stalled st' log)
    /\ head (convertedImages st') = Some r
    /\ originalFile r = Examples.a_webp
    /\ url r = "data:image/jpeg;base64,/9j/4AAQ"
    /\ exists result img,
         readAsDataURL Examples.browser Examples.a_webp = Some result
         /\ decode Examples.browser result = Some img
         /\ toDataURL Examples.browser
              {| canvas_width := width img; canvas_height := height img;
                 drawn := Some img |}
              "image/jpeg" (QArith_base.Qmake 9 10)
            = Normal "data:image/jpeg;base64,/9j/4AAQ".
Proof.
  destruct (results_are_conversions MoreExamples.machine
              [[]; []; [Live.ExportFailure "out of memory"]]
              MoreExamples.two_selected)
    as (st' & log & Hrun & Hall & Hpos); [apply two_selected_nonempty|].
  destruct Hpos as [_ Hfirst]; [repeat constructor|].
  destruct (Hfirst Examples.a_webp "data:image/jpeg;base64,/9j/4AAQ")
    as (r & Hr & Hfile & Hurl);
    [reflexivity | by apply machine_resolves |].
  exists st', log, r. split; [exact Hrun|]. split; [exact Hr|].
  split; [exact Hfile|]. split; [exact Hurl|].
  destruct (Hall r) as (result & img & H1 & H2 & _ & H3).
  - destruct (convertedImages st'); [done|]. injection Hr as ->. by left.
  - rewrite Hfile in H1. rewrite Hurl in H3. by exists result, img.
Defined.

(** X2, on the run over [a.webp; b.webp] that fails on its second file. *)
Lemma run_succeeds_iff_all_converted_witness :
  exists st' log,
    Live.convertImages MoreExamples.machine []
      (Examples.selected [Examples.a_webp; Examples.b_webp])
    = Live.Finished st' log
    /\ (error st' <> None <-> length (convertedImages st') < 2).
Proof.
  destruct (run_succeeds_iff_all_converted MoreExamples.machine []
              (Examples.selected [Examples.a_webp; Examples.b_webp]))
    as [(st' & log & Hrun & _ & _ & Hfail)|(st' & log & f & Hrun & _)].
  - vm_compute. discriminate.
  - constructor.
  - by exists st', log.
  - vm_compute in Hrun. discriminate.
Defined.

(** X3, on the same run, an export failing meanwhile. *)
Lemma run_reads_in_order_witness :
  exists st' log,
    (Live.convertImages MoreExamples.machine
       [[]; []; [Live.ExportFailure "out of memory"]]
       (Examples.selected [Examples.a_webp; Examples.b_webp])
     = Live.Finished st' log
     \/ Live.convertImages MoreExamples.machine
          [[]; []; [Live.ExportFailure "out of memory"]]
          (Examples.selected [Examples.a_webp; Examples.b_webp])
        = Live.Stalled st' log)
    /\ attempted log `prefix_of` [Examples.a_webp; Examples.b_webp]
    /\ attempted log
       = take (S (length (convertedImages st')))
              [Examples.a_webp; Examples.b_webp].
Proof.
  destruct (run_reads_in_order MoreExamples.machine
              [[]; []; [Live.ExportFailure "out of memory"]]
              (Examples.selected [Examples.a_webp; Examples.b_webp]))
    as (st' & log & Hrun & Hpre & Htake & _).
  - vm_compute. discriminate.
  - repeat constructor.
  - by exists st', log.
Defined.

(** X11, on the run over [a.webp; d.webp] and the export after it. *)
Lemma run_then_export_witness :
  exists st' log blob,
    Live.convertImages MoreExamples.machine [] MoreExamples.two_selected
    = Live.Finished st' log
    /\ downloads (downloadAllImages Examples.page st').2
       = [("converted_images.zip", "blob:converted")]
    /\ CreateObjectURL blob ∈ (downloadAllImages Examples.page st').2
    /\ blob.*1 = ["img-1.jpg"; "img-2.jpg"]
    /\ blob.*2 = ["bytes of /9j/4AAQ"; "bytes of /9j/4AAQ"]
    /\ download <$> imageLinks st' = blob.*1.
Proof.
  destruct (run_then_export MoreExamples.machine [] Examples.page
              MoreExamples.two_selected
              ["data:image/jpeg;base64,/9j/4AAQ";
               "data:image/jpeg;base64,/9j/4AAQ"]
              (fun u => "bytes of /9j/4AAQ"))
    as (st' & log & blob & Hrun & Hexport & Hnames & Hdata & Hlinks).
  - apply two_selected_nonempty.
  - constructor.
  - repeat constructor; by apply machine_resolves.
  - intros u Hin.
    repeat (apply elem_of_cons in Hin as [->|Hin]); try reflexivity.
    by apply elem_of_nil in Hin.
  - intros link. repeat split; reflexivity.
  - exists st', log, blob. rewrite Hexport. repeat split; try done.
    by repeat constructor.
Defined.

(** X13, on the run over [a.webp; d.webp; c.WEBP] that cannot build the
    canvas for [d.webp], a selection coming in meanwhile. *)
Lemma run_flag_with_page_alive_witness :
  exists st' log,
    Live.convertImages MoreExamples.machine_without_canvas
      [[Live.Selection [Examples.a_webp; Examples.d_webp]]]
      (Examples.selected [Examples.a_webp; Examples.d_webp; Examples.c_WEBP])
    = Live.Stalled st' log
    /\ isConverting st' = true
    /\ last (attempted log) = Some Examples.d_webp
    /\ Live.stalls MoreExamples.machine_without_canvas Examples.d_webp
    /\ Forall (fun view => isConverting view = true
                           /\ convertDisabled view = true) (frames log).
Proof.
  destruct (run_flag_with_page_alive MoreExamples.machine_without_canvas
              [[Live.Selection [Examples.a_webp; Examples.d_webp]]]
              (Examples.selected
                 [Examples.a_webp; Examples.d_webp; Examples.c_WEBP]))
    as (st' & log & [[Hrun _]|(Hrun & Hflag & f & Hlast & Hf)] & _ & Hframes).
  - vm_compute. discriminate.
  - vm_compute in Hrun. discriminate.
  - exists st', log. split; [exact Hrun|]. split; [exact Hflag|].
    assert (f = Examples.d_webp) as ->.
    { vm_compute in Hrun. injection Hrun as _ <-.
      vm_compute in Hlast. by injection Hlast as <-. }
    by repeat split.
Defined.
